(** * vcl::graphic::Manager  --  source/graphic/Manager.cxx

    A shallow embedding of the graphic memory manager: the registry of
    [ImpGraphic] pointers, the running byte counter [mnUsedSize], the
    eviction sweep [loopGraphicsAndSwapOut] and its entry procedure
    [reduceGraphicMemory], the registration and notification entry points,
    and the configuration set-up of the constructor.

    Conventions of the embedding.
    - [sal_Int64] values are integers of [Z]; every [+=] and [-=] of the
      source is followed by the wrap to the signed 64-bit range.
    - [double] arithmetic of [mnMemoryLimit * 0.7] is computed with the
      IEEE 754 binary64 specification of [SpecFloat].
    - An [ImpGraphic*] is an address of [N], [0] being [nullptr].  The
      objects live outside of the manager: the store maps every address to
      the image of the object the manager reads through it.
    - [ImpGraphic::swapOut] is a call into foreign code which may re-enter
      the manager; it is an arbitrary transformer of the whole state.
    - The actions of the calling thread that matter to the outside (mutex
      operations, the snapshot copy, the calls of [swapOut], the log line)
      are collected in a trace of events. *)

From Stdlib Require Import ZArith List Bool Lia Sorted.
From Stdlib Require Import SpecFloat.
Import ListNotations.

#[local] Open Scope Z_scope.

(** ** Machine arithmetic *)

Module Int64.

Definition modulus : Z := 2 ^ 64.
Definition min_signed : Z := - 2 ^ 63.
Definition max_signed : Z := 2 ^ 63 - 1.

(** Reduction of an integer to the signed 64-bit range. *)
Definition wrap (z : Z) : Z := (z + 2 ^ 63) mod modulus - 2 ^ 63.

Definition add (a b : Z) : Z := wrap (a + b).
Definition sub (a b : Z) : Z := wrap (a - b).

Definition in_range (z : Z) : Prop := min_signed <= z <= max_signed.

End Int64.

(** [double] as IEEE 754 binary64. *)
Module Double.

Definition prec : Z := 53.
Definition emax : Z := 1024.

(** Conversion of a [sal_Int64] to [double] (round to nearest, ties to even). *)
Definition of_int (z : Z) : spec_float := binary_normalize prec emax z 0 false.

(** The literal [0.7]: the binary64 number nearest to 7/10,
    [0x3FE6666666666666]. *)
Definition lit_0_7 : spec_float := S754_finite false 6305039478318694 (-53).

Definition mul : spec_float -> spec_float -> spec_float := SFmul prec emax.

(** Conversion of a [double] to [sal_Int64]: the fractional part is
    discarded.  Values without an integer image are sent to [0]; the
    product of a [sal_Int64] by [0.7] is never one of them. *)
Definition to_int (f : spec_float) : Z :=
  match f with
  | S754_finite s m e =>
      let a := if 0 <=? e then Z.pos m * 2 ^ e else Z.pos m / 2 ^ (- e) in
      if s then - a else a
  | _ => 0
  end.

End Double.

(** ** o3tl::sorted_vector<ImpGraphic*>

    A vector kept strictly increasing in the pointer order. *)

Definition ImpGraphicPtr : Type := N.

Definition nullptr : ImpGraphicPtr := 0%N.

Module sorted_vector.

(** [insert]: the position is the lower bound of the key; a key that is
    already there is not inserted again. *)
Fixpoint insert (x : ImpGraphicPtr) (v : list ImpGraphicPtr) : list ImpGraphicPtr :=
  match v with
  | [] => [x]
  | y :: v' =>
      if (x <? y)%N then x :: v
      else if (x =? y)%N then v
      else y :: insert x v'
  end.

(** [erase(key)]: the element at the lower bound of the key is removed when
    it equals the key. *)
Fixpoint erase (x : ImpGraphicPtr) (v : list ImpGraphicPtr) : list ImpGraphicPtr :=
  match v with
  | [] => []
  | y :: v' =>
      if (y <? x)%N then y :: erase x v'
      else if (x =? y)%N then v'
      else v
  end.

Definition sorted (v : list ImpGraphicPtr) : Prop := StronglySorted N.lt v.

End sorted_vector.

(** ** The managed objects *)

(** Modelled from the spec: the class [ImpGraphic] (impgraph.hxx) is not
    part of the sources at hand.  The record holds what the manager reads
    of an object: [isSwappedOut()], [isAvailable()], [getSizeBytes()], the
    reader context [mpContext] (here: whether the pointer is set) and the
    time stamp [maLastUsed] in ticks of the clock. *)
Record ImpGraphic : Type := mkImpGraphic {
  isSwappedOut : bool;
  isAvailable : bool;
  getSizeBytes : Z;
  mpContext : bool;
  maLastUsed : Z
}.

(** ** The manager *)

Record Manager : Type := mkManager {
  mnAllowedIdleTime : Z;            (* std::chrono::seconds *)
  mbSwapEnabled : bool;
  mbReducingGraphicMemory : bool;
  mnMemoryLimit : Z;
  mnUsedSize : Z;
  maSwapOutTimer : bool;            (* the timer is running *)
  m_pImpGraphicList : list ImpGraphicPtr
}.

(** The state a call of the manager works on: its own members, the objects
    behind the pointers, and the reading of
    [std::chrono::high_resolution_clock]. *)
Record State : Type := mkState {
  manager : Manager;
  graphics : ImpGraphicPtr -> ImpGraphic;
  clock : Z
}.

Definition with_manager (m : Manager) (s : State) : State :=
  mkState m (graphics s) (clock s).

Definition set_mnUsedSize (n : Z) (m : Manager) : Manager :=
  mkManager (mnAllowedIdleTime m) (mbSwapEnabled m) (mbReducingGraphicMemory m)
            (mnMemoryLimit m) n (maSwapOutTimer m) (m_pImpGraphicList m).

Definition set_mbReducingGraphicMemory (b : bool) (m : Manager) : Manager :=
  mkManager (mnAllowedIdleTime m) (mbSwapEnabled m) b
            (mnMemoryLimit m) (mnUsedSize m) (maSwapOutTimer m) (m_pImpGraphicList m).

Definition set_m_pImpGraphicList (v : list ImpGraphicPtr) (m : Manager) : Manager :=
  mkManager (mnAllowedIdleTime m) (mbSwapEnabled m) (mbReducingGraphicMemory m)
            (mnMemoryLimit m) (mnUsedSize m) (maSwapOutTimer m) v.

(** What the calling thread does that can be seen from outside. *)
Inductive Event : Type :=
| EvLock                                        (* maMutex acquired *)
| EvUnlock                                      (* maMutex released *)
| EvSnapshot (v : list ImpGraphicPtr)           (* copy of m_pImpGraphicList taken *)
| EvSwapOut (p : ImpGraphicPtr) (pre : State)   (* p->swapOut() called in state pre *)
| EvInfo (variable calculated : Z).             (* SAL_INFO "Calculated size mismatch" *)

Definition Trace : Type := list Event.

(** ** Accounting helpers *)

(** [Manager::getGraphicSizeBytes]. *)
Definition getGraphicSizeBytes (s : State) (pImpGraphic : ImpGraphicPtr) : Z :=
  if negb (isAvailable (graphics s pImpGraphic)) then 0
  else getSizeBytes (graphics s pImpGraphic).

(** The loop "calculate size of the graphic set" of [registerGraphic] and
    [reduceGraphicMemory]: the sizes of the members that are not swapped
    out, added up in a [sal_Int64]. *)
Definition calculatedSize (s : State) : Z :=
  fold_left
    (fun acc pEachImpGraphic =>
       if negb (isSwappedOut (graphics s pEachImpGraphic))
       then Int64.add acc (getGraphicSizeBytes s pEachImpGraphic)
       else acc)
    (m_pImpGraphicList (manager s)) 0.

(** [sal_Int64(mnMemoryLimit * 0.7)]. *)
Definition sweepTarget (nMemoryLimit : Z) : Z :=
  Double.to_int (Double.mul (Double.of_int nMemoryLimit) Double.lit_0_7).

Definition add_mnUsedSize (n : Z) (s : State) : State :=
  with_manager (set_mnUsedSize (Int64.add (mnUsedSize (manager s)) n) (manager s)) s.

Definition sub_mnUsedSize (n : Z) (s : State) : State :=
  with_manager (set_mnUsedSize (Int64.sub (mnUsedSize (manager s)) n) (manager s)) s.

(** ** Operations that never call into an object *)

(** [Manager::unregisterGraphic]. *)
Definition unregisterGraphic (pImpGraphic : ImpGraphicPtr) (s : State) : State * Trace :=
  let s1 := sub_mnUsedSize (getGraphicSizeBytes s pImpGraphic) s in
  let s2 := with_manager
              (set_m_pImpGraphicList
                 (sorted_vector.erase pImpGraphic (m_pImpGraphicList (manager s1)))
                 (manager s1)) s1 in
  (s2, [EvLock; EvUnlock]).

(** [Manager::swappedIn]. *)
Definition swappedIn (pImpGraphic : ImpGraphicPtr) (nSizeBytes : Z) (s : State)
  : State * Trace :=
  let s1 := if (pImpGraphic =? nullptr)%N then s else add_mnUsedSize nSizeBytes s in
  (s1, [EvLock; EvUnlock]).

(** [Manager::swappedOut]. *)
Definition swappedOut (pImpGraphic : ImpGraphicPtr) (nSizeBytes : Z) (s : State)
  : State * Trace :=
  let s1 := if (pImpGraphic =? nullptr)%N then s else sub_mnUsedSize nSizeBytes s in
  (s1, [EvLock; EvUnlock]).

(** [Manager::changeExisting]. *)
Definition changeExisting (pImpGraphic : ImpGraphicPtr) (nOldSizeBytes : Z) (s : State)
  : State * Trace :=
  let s1 := sub_mnUsedSize nOldSizeBytes s in
  let s2 := add_mnUsedSize (getGraphicSizeBytes s1 pImpGraphic) s1 in
  (s2, [EvLock; EvUnlock]).

(** ** The eviction sweep and the operations that may run it *)

Section Sweep.

(** Ticks of [std::chrono::high_resolution_clock] per second. *)
Variable ticks_per_second : Z.

(** [ImpGraphic::swapOut], called with the mutex released. *)
Variable swapOut : ImpGraphicPtr -> State -> State.

(** [std::chrono::duration_cast<std::chrono::seconds>]: the quotient
    truncated towards zero. *)
Definition duration_cast_seconds (aDeltaTime : Z) : Z :=
  Z.quot aDeltaTime ticks_per_second.

(** The body of the [for] loop of [loopGraphicsAndSwapOut] below its early
    [return]: one snapshotted object is looked at. *)
Definition loopBody (pEachImpGraphic : ImpGraphicPtr) (s : State) : State * Trace :=
  if isSwappedOut (graphics s pEachImpGraphic) then (s, [])
  else
    let nCurrentGraphicSize := getGraphicSizeBytes s pEachImpGraphic in
    if 100000 <? nCurrentGraphicSize then
      if negb (mpContext (graphics s pEachImpGraphic)) then
        let aCurrent := clock s in
        let aDeltaTime := aCurrent - maLastUsed (graphics s pEachImpGraphic) in
        let aSeconds := duration_cast_seconds aDeltaTime in
        if mnAllowedIdleTime (manager s) <? aSeconds then
          (swapOut pEachImpGraphic s,
           [EvUnlock; EvSwapOut pEachImpGraphic s; EvLock])
        else (s, [])
      else (s, [])
    else (s, []).

(** The [for] loop over the copy [aImpGraphicList]. *)
Fixpoint loopOver (aImpGraphicList : list ImpGraphicPtr) (s : State) : State * Trace :=
  match aImpGraphicList with
  | [] => (s, [])
  | pEachImpGraphic :: rest =>
      if mnUsedSize (manager s) <? sweepTarget (mnMemoryLimit (manager s))
      then (s, [])
      else
        let '(s1, t1) := loopBody pEachImpGraphic s in
        let '(s2, t2) := loopOver rest s1 in
        (s2, t1 ++ t2)
  end.

(** [Manager::loopGraphicsAndSwapOut]; the caller holds the mutex. *)
Definition loopGraphicsAndSwapOut (s : State) : State * Trace :=
  let aImpGraphicList := m_pImpGraphicList (manager s) in
  let '(s1, t) := loopOver aImpGraphicList s in
  (s1, EvSnapshot aImpGraphicList :: t).

(** [Manager::reduceGraphicMemory]; the caller holds the mutex. *)
Definition reduceGraphicMemory (s : State) : State * Trace :=
  if negb (mbSwapEnabled (manager s)) then (s, [])
  else if mnUsedSize (manager s) <? mnMemoryLimit (manager s) then (s, [])
  else if mbReducingGraphicMemory (manager s) then (s, [])
  else
    let s1 := with_manager (set_mbReducingGraphicMemory true (manager s)) s in
    let '(s2, t) := loopGraphicsAndSwapOut s1 in
    let calculated := calculatedSize s2 in
    let s3 := if negb (calculated =? mnUsedSize (manager s2))
              then with_manager (set_mnUsedSize calculated (manager s2)) s2
              else s2 in
    (with_manager (set_mbReducingGraphicMemory false (manager s3)) s3, t).

(** The first statement of [registerGraphic], "make some space first". *)
Definition makeSpace (s : State) : State * Trace :=
  if mnMemoryLimit (manager s) <? mnUsedSize (manager s)
  then reduceGraphicMemory s
  else (s, []).

(** [Manager::registerGraphic]. *)
Definition registerGraphic (pImpGraphic : ImpGraphicPtr) (s : State) : State * Trace :=
  let '(s1, t) := makeSpace s in
  let s2 := add_mnUsedSize (getGraphicSizeBytes s1 pImpGraphic) s1 in
  let s3 := with_manager
              (set_m_pImpGraphicList
                 (sorted_vector.insert pImpGraphic (m_pImpGraphicList (manager s2)))
                 (manager s2)) s2 in
  let calculated := calculatedSize s3 in
  let '(s4, t') :=
    if negb (calculated =? mnUsedSize (manager s3))
    then (with_manager (set_mnUsedSize calculated (manager s3)) s3,
          [EvInfo (mnUsedSize (manager s3)) calculated])
    else (s3, []) in
  (s4, EvLock :: t ++ t' ++ [EvUnlock]).

(** The counter as [registerGraphic] has it after "Insert and update the
    used size", before the recalculation. *)
Definition incremental (p : ImpGraphicPtr) (s : State) : Z :=
  Int64.add (mnUsedSize (manager (fst (makeSpace s))))
            (getGraphicSizeBytes (fst (makeSpace s)) p).

Definition set_maSwapOutTimer (b : bool) (s : State) : State :=
  with_manager
    (mkManager (mnAllowedIdleTime (manager s)) (mbSwapEnabled (manager s))
               (mbReducingGraphicMemory (manager s)) (mnMemoryLimit (manager s))
               (mnUsedSize (manager s)) b (m_pImpGraphicList (manager s))) s.

(** [Manager::SwapOutTimerHandler]. *)
Definition SwapOutTimerHandler (s : State) : State * Trace :=
  let s1 := set_maSwapOutTimer false s in
  let '(s2, t) := reduceGraphicMemory s1 in
  (set_maSwapOutTimer true s2, EvLock :: t ++ [EvUnlock]).

End Sweep.

(** ** Construction and configuration *)

(** Modelled from the spec: the configuration source
    ([utl::ConfigManager], [officecfg::Office::Common::Cache]) is not part
    of the sources at hand.  Each [get()] either yields a value or throws;
    a throw is [None]. *)
Record Configuration : Type := mkConfiguration {
  IsFuzzing : bool;
  GraphicMemoryLimit_get : option Z;
  GraphicAllowedIdleTime_get : option Z;
  GraphicSwappingEnabled_get : option bool
}.

(** The three reference parameters of [setupConfigurationValuesIfPossible]. *)
Record ConfigValues : Type := mkConfigValues {
  rMemoryLimit : Z;
  rAllowedIdleTime : Z;
  bSwapEnabled : bool
}.

(** How a block is left: at its end, or by an exception; either way with
    the values the references hold at that moment. *)
Inductive Completion : Type :=
| Normal (r : ConfigValues)
| Thrown (r : ConfigValues).

(** The [try] block: three reads, each assigned as soon as it is read. *)
Definition tryBlock (cfg : Configuration) (r : ConfigValues) : Completion :=
  match GraphicMemoryLimit_get cfg with
  | None => Thrown r
  | Some l =>
      let r1 := mkConfigValues l (rAllowedIdleTime r) (bSwapEnabled r) in
      match GraphicAllowedIdleTime_get cfg with
      | None => Thrown r1
      | Some i =>
          let r2 := mkConfigValues (rMemoryLimit r1) i (bSwapEnabled r1) in
          match GraphicSwappingEnabled_get cfg with
          | None => Thrown r2
          | Some b => Normal (mkConfigValues (rMemoryLimit r2) (rAllowedIdleTime r2) b)
          end
      end
  end.

(** [setupConfigurationValuesIfPossible]: [catch (...) {}] ends the call
    normally whatever was thrown. *)
Definition setupConfigurationValuesIfPossible (cfg : Configuration) (r : ConfigValues)
  : ConfigValues :=
  if IsFuzzing cfg then r
  else
    match tryBlock cfg r with
    | Normal r' => r'
    | Thrown r' => r'
    end.

(** [Manager::Manager]: the member initialisers, the configuration, and the
    timer, started when swapping is enabled. *)
Definition Manager_ctor (cfg : Configuration) : Manager :=
  let r := setupConfigurationValuesIfPossible cfg (mkConfigValues 300000000 10 true) in
  mkManager (rAllowedIdleTime r) (bSwapEnabled r) false (rMemoryLimit r) 0
            (bSwapEnabled r) [].

(** ** Runs of operations *)

(** The object behind [p] takes the image [g]. *)
Definition setGraphic (p : ImpGraphicPtr) (g : ImpGraphic) (s : State) : State :=
  mkState (manager s)
          (fun q => if (q =? p)%N then g else graphics s q)
          (clock s).

(** One step of a client of the manager, taken to its end.  A factory
    operation builds the object and registers it; an object that has
    changed its own image reports it with the matching notification. *)
Inductive Op : Type :=
| OpRegister (p : ImpGraphicPtr) (g : ImpGraphic)
| OpUnregister (p : ImpGraphicPtr)
| OpSwappedIn (p : ImpGraphicPtr) (g : ImpGraphic) (nSizeBytes : Z)
| OpSwappedOut (p : ImpGraphicPtr) (g : ImpGraphic) (nSizeBytes : Z)
| OpChangeExisting (p : ImpGraphicPtr) (g : ImpGraphic) (nOldSizeBytes : Z).

Section Runs.

Variable ticks_per_second : Z.
Variable swapOut : ImpGraphicPtr -> State -> State.

Definition step (op : Op) (s : State) : State * Trace :=
  match op with
  | OpRegister p g => registerGraphic ticks_per_second swapOut p (setGraphic p g s)
  | OpUnregister p => unregisterGraphic p s
  | OpSwappedIn p g n => swappedIn p n (setGraphic p g s)
  | OpSwappedOut p g n => swappedOut p n (setGraphic p g s)
  | OpChangeExisting p g n => changeExisting p n (setGraphic p g s)
  end.

Fixpoint run (ops : list Op) (s : State) : State * Trace :=
  match ops with
  | [] => (s, [])
  | op :: rest =>
      let '(s1, t1) := step op s in
      let '(s2, t2) := run rest s1 in
      (s2, t1 ++ t2)
  end.

End Runs.

(** [mnUsedSize] is the sum the recalculation loop would find. *)
Definition accounted (s : State) : Prop :=
  mnUsedSize (manager s) = calculatedSize s.

(** The part an object has in the sum. *)
Definition counted (s : State) (p : ImpGraphicPtr) : Z :=
  if isSwappedOut (graphics s p) then 0 else getGraphicSizeBytes s p.

Definition sumOver (c : ImpGraphicPtr -> Z) (v : list ImpGraphicPtr) : Z :=
  fold_right (fun p acc => c p + acc) 0 v.

(** The sum of the sizes of the swapped-in members, as an integer. *)
Definition literalSum (s : State) : Z :=
  sumOver (counted s) (m_pImpGraphicList (manager s)).

(** A step that reports exactly what it changes: the object is a member of
    the registry, the transition is the one the notification names, and
    the size passed is the size that was, or is now, counted. *)
Definition reportsExactly (s : State) (op : Op) : Prop :=
  match op with
  | OpRegister _ _ => True
  | OpUnregister p =>
      getGraphicSizeBytes s p = 0
      \/ (In p (m_pImpGraphicList (manager s))
          /\ isSwappedOut (graphics s p) = false)
  | OpSwappedIn p g n =>
      p <> nullptr
      /\ In p (m_pImpGraphicList (manager s))
      /\ isSwappedOut (graphics s p) = true
      /\ isSwappedOut g = false
      /\ n = getGraphicSizeBytes (setGraphic p g s) p
  | OpSwappedOut p g n =>
      p <> nullptr
      /\ In p (m_pImpGraphicList (manager s))
      /\ isSwappedOut (graphics s p) = false
      /\ isSwappedOut g = true
      /\ n = getGraphicSizeBytes s p
  | OpChangeExisting p g n =>
      In p (m_pImpGraphicList (manager s))
      /\ isSwappedOut (graphics s p) = false
      /\ isSwappedOut g = false
      /\ n = getGraphicSizeBytes s p
  end.

Section RunsExact.

Variable ticks_per_second : Z.
Variable swapOut : ImpGraphicPtr -> State -> State.

(** Every step of the run reports exactly, in the state it is taken in. *)
Fixpoint allReportExactly (ops : list Op) (s : State) : Prop :=
  match ops with
  | [] => True
  | op :: rest =>
      reportsExactly s op
      /\ allReportExactly rest (fst (step ticks_per_second swapOut op s))
  end.

End RunsExact.

(** The lock as the trace tells it: held after [EvLock], free after
    [EvUnlock]; [true] when no [swapOut] call is made with the lock held. *)
Fixpoint neverHeldAcrossSwapOut (held : bool) (t : Trace) : bool :=
  match t with
  | [] => true
  | EvLock :: t' => neverHeldAcrossSwapOut true t'
  | EvUnlock :: t' => neverHeldAcrossSwapOut false t'
  | EvSwapOut _ _ :: t' => negb held && neverHeldAcrossSwapOut held t'
  | _ :: t' => neverHeldAcrossSwapOut held t'
  end.

(** The objects [swapOut] is called on, in the order of the calls. *)
Fixpoint swapOutCalls (t : Trace) : list ImpGraphicPtr :=
  match t with
  | [] => []
  | EvSwapOut p _ :: t' => p :: swapOutCalls t'
  | _ :: t' => swapOutCalls t'
  end.

Definition isSnapshot (e : Event) : bool :=
  match e with EvSnapshot _ => true | _ => false end.

(** The idle time of an object, in ticks of the clock. *)
Definition idleTicks (s : State) (p : ImpGraphicPtr) : Z :=
  clock s - maLastUsed (graphics s p).

(** The tests of the loop body an object passes before its [swapOut] is
    called: swapped in, above 100,000 bytes, no reader context, and idle,
    in whole seconds, for more than the allowed idle time. *)
Definition evictable (ticks_per_second : Z) (s : State) (p : ImpGraphicPtr) : bool :=
  negb (isSwappedOut (graphics s p))
  && (100000 <? getGraphicSizeBytes s p)
  && negb (mpContext (graphics s p))
  && (mnAllowedIdleTime (manager s)
      <? duration_cast_seconds ticks_per_second (idleTicks s p)).

(** What the sweep does around one call of [swapOut]. *)
Definition swapOutBlock (c : ImpGraphicPtr * State) : Trace :=
  [EvUnlock; EvSwapOut (fst c) (snd c); EvLock].

(** The state [reduceGraphicMemory] hands to the sweep. *)
Definition guarded (s : State) : State :=
  with_manager (set_mbReducingGraphicMemory true (manager s)) s.

(** [mnUsedSize < sal_Int64(mnMemoryLimit * 0.7)]. *)
Definition belowTarget (s : State) : Prop :=
  mnUsedSize (manager s) < sweepTarget (mnMemoryLimit (manager s)).

(** The three ways [reduceGraphicMemory] returns at once. *)
Definition suppressed (s : State) : bool :=
  negb (mbSwapEnabled (manager s))
  || (mnUsedSize (manager s) <? mnMemoryLimit (manager s))
  || mbReducingGraphicMemory (manager s).

(** ** Scenarios *)

Module Scenario.

(** Nanosecond ticks, as the clocks of the supported tool chains have. *)
Definition nanoseconds : Z := 1000000000.

(** Modelled from the spec: [ImpGraphic::swapOut] (impgraph.cxx) is not
    part of the sources at hand.  An object that is swapped in drops its
    payload and reports the size it gives up with [swappedOut]; an object
    that is already swapped out does nothing. *)
Definition ImpGraphic_swapOut (p : ImpGraphicPtr) (s : State) : State :=
  let g := graphics s p in
  if isSwappedOut g then s
  else
    let n := getGraphicSizeBytes s p in
    fst (swappedOut p n
           (setGraphic p (mkImpGraphic true false (getSizeBytes g) (mpContext g)
                                       (maLastUsed g)) s)).

(** A swapped-in, available object of [n] bytes without reader context,
    last used at tick [t]. *)
Definition idleGraphic (n t : Z) : ImpGraphic := mkImpGraphic false true n false t.

Definition noGraphic : ImpGraphic := mkImpGraphic true false 0 false 0.

(** A manager constructed from [cfg] at clock reading [now]. *)
Definition fresh (cfg : Configuration) (now : Z) : State :=
  mkState (Manager_ctor cfg) (fun _ => noGraphic) now.

Definition defaults : Configuration := mkConfiguration false None None None.

Definition limited (nLimit : Z) : Configuration :=
  mkConfiguration false (Some nLimit) (Some 10) (Some true).

(** Limit 1,000,000; three objects of 500,000 bytes, idle for 60 s. *)
Definition threeHalfMegabytes : list Op :=
  [OpRegister 1%N (idleGraphic 500000 0);
   OpRegister 2%N (idleGraphic 500000 0);
   OpRegister 3%N (idleGraphic 500000 0)].

Definition afterThree : State :=
  fst (run nanoseconds ImpGraphic_swapOut threeHalfMegabytes
           (fresh (limited 1000000) (60 * nanoseconds))).

(** Limit 200,001; objects of 150,000 and 140,000 bytes, idle for 60 s. *)
Definition boundary : State :=
  fst (run nanoseconds ImpGraphic_swapOut
           [OpRegister 1%N (idleGraphic 150000 0);
            OpRegister 2%N (idleGraphic 140000 0)]
           (fresh (limited 200001) (60 * nanoseconds))).



(** An object that is swapped out and still reports its 500 bytes. *)
Definition swappedOutSized : ImpGraphic := mkImpGraphic true true 500 false 0.

Definition registerThenSwapOutThenUnregister : list Op :=
  [OpRegister 1%N (idleGraphic 500 0);
   OpSwappedOut 1%N swappedOutSized 500;
   OpUnregister 1%N].

(** A notification of a swap-in for an object that was swapped in all along. *)
Definition swapInReportedTwice : list Op :=
  [OpRegister 1%N (idleGraphic 500 0);
   OpSwappedIn 1%N (idleGraphic 500 0) 500].

(** A run in which every step reports exactly what it changes. *)
Definition exactRun : list Op :=
  [OpRegister 1%N (idleGraphic 500 0);
   OpSwappedOut 1%N (mkImpGraphic true false 500 false 0) 500;
   OpSwappedIn 1%N (idleGraphic 500 0) 500;
   OpChangeExisting 1%N (idleGraphic 700 0) 500;
   OpRegister 2%N (idleGraphic 300 0);
   OpUnregister 1%N].

(** The object 1 registered, then swapped out while it still reports its
    500 bytes. *)
Definition swappedOutSizedRegistered : State :=
  fst (run nanoseconds ImpGraphic_swapOut
           [OpRegister 1%N (idleGraphic 500 0);
            OpSwappedOut 1%N swappedOutSized 500]
           (fresh defaults 0)).

(** The three objects of [afterThree], and a fourth about to be registered. *)
Definition beforeFourth : State := setGraphic 4%N (idleGraphic 500000 0) afterThree.

(** A [swapOut] that calls back into the manager: while the object is
    swapped out a temporary object 9 of 200,000 bytes is registered. *)
Definition reentrant_swapOut (p : ImpGraphicPtr) (s : State) : State :=
  fst (registerGraphic nanoseconds ImpGraphic_swapOut 9%N
         (setGraphic 9%N (idleGraphic 200000 0) (ImpGraphic_swapOut p s))).

(** The second read of the configuration throws. *)
Definition secondReadFails : Configuration :=
  mkConfiguration false (Some 5) None (Some false).

End Scenario.

(** ** Further notions for the sweep and for scenarios *)

(** [calls] is what remains of [v] when some of its elements are left
    out: the same elements, in the same order, none twice as often. *)
Inductive Subsequence : list ImpGraphicPtr -> list ImpGraphicPtr -> Prop :=
| Subsequence_nil : Subsequence [] []
| Subsequence_skip p calls v : Subsequence calls v -> Subsequence calls (p :: v)
| Subsequence_keep p calls v : Subsequence calls v -> Subsequence (p :: calls) (p :: v).

(** The calls of [swapOut] on the objects of [calls], one after the other. *)
Definition applyCalls (swapOut : ImpGraphicPtr -> State -> State)
           (calls : list ImpGraphicPtr) (s : State) : State :=
  fold_left (fun st p => swapOut p st) calls s.

Definition isInfo (e : Event) : bool :=
  match e with EvInfo _ _ => true | _ => false end.

Section Factories.

Variable ticks_per_second : Z.
Variable swapOut : ImpGraphicPtr -> State -> State.

(** [Manager::newInstance], in each of its overloads:
    [std::make_shared<ImpGraphic>(...)] builds the object, here at the
    address [pReturn] and with the image [g] its constructor gives it; the
    object is registered and the pointer returned. *)
Definition newInstance (pReturn : ImpGraphicPtr) (g : ImpGraphic) (s : State)
  : ImpGraphicPtr * (State * Trace) :=
  (pReturn, registerGraphic ticks_per_second swapOut pReturn (setGraphic pReturn g s)).

(** [Manager::copy]: the object is built by the copy constructor of
    [ImpGraphic], [copyOf], from the object behind [rImpGraphicPtr]. *)
Definition copy (pReturn : ImpGraphicPtr) (copyOf : ImpGraphic -> ImpGraphic)
           (rImpGraphicPtr : ImpGraphicPtr) (s : State)
  : ImpGraphicPtr * (State * Trace) :=
  newInstance pReturn (copyOf (graphics s rImpGraphicPtr)) s.

End Factories.

Module Scenario2.

Import Scenario.

(** Limit 1,000,000; two objects of 500,000 bytes: the counter is at the
    limit, not above it. *)
Definition atLimit : State :=
  fst (run nanoseconds ImpGraphic_swapOut
           [OpRegister 1%N (idleGraphic 500000 0);
            OpRegister 2%N (idleGraphic 500000 0)]
           (fresh (limited 1000000) (60 * nanoseconds))).

(** [atLimit] with a third object built at address 3, not yet registered. *)
Definition atLimitThirdBuilt : State := setGraphic 3%N (idleGraphic 500000 0) atLimit.

(** Limit 200,000; one object of 300,000 bytes, idle for a minute, with a
    reader context. *)
Definition busy : State :=
  fst (run nanoseconds ImpGraphic_swapOut
           [OpRegister 1%N (mkImpGraphic false true 300000 true 0)]
           (fresh (limited 200000) (60 * nanoseconds))).

(** Swapping disabled by the configuration; limit 1,000,000 and three
    objects of 500,000 bytes. *)
Definition disabled : State :=
  fst (run nanoseconds ImpGraphic_swapOut threeHalfMegabytes
           (fresh (mkConfiguration false (Some 1000000) (Some 10) (Some false))
                  (60 * nanoseconds))).

(** All three reads of the configuration succeed. *)
Definition configured : Configuration :=
  mkConfiguration false (Some 1000000) (Some 30) (Some false).

End Scenario2.

(** * Properties *)

(** ** Signed 64-bit arithmetic *)

Module Int64Facts.

Lemma wrap_congr a : (Int64.wrap a + 2 ^ 63) mod Int64.modulus = (a + 2 ^ 63) mod Int64.modulus.
Proof.
  unfold Int64.wrap.
  replace ((a + 2 ^ 63) mod Int64.modulus - 2 ^ 63 + 2 ^ 63)
    with ((a + 2 ^ 63) mod Int64.modulus) by ring.
  apply Z.mod_mod. unfold Int64.modulus. lia.
Qed.

Lemma wrap_add_l a b : Int64.wrap (Int64.wrap a + b) = Int64.wrap (a + b).
Proof.
  unfold Int64.wrap at 1 3. f_equal.
  replace (Int64.wrap a + b + 2 ^ 63) with ((Int64.wrap a + 2 ^ 63) + b) by ring.
  replace (a + b + 2 ^ 63) with ((a + 2 ^ 63) + b) by ring.
  rewrite <- (Zplus_mod_idemp_l (Int64.wrap a + 2 ^ 63)).
  rewrite wrap_congr.
  apply Zplus_mod_idemp_l.
Qed.

Lemma wrap_in_range z : Int64.in_range z -> Int64.wrap z = z.
Proof.
  unfold Int64.in_range, Int64.min_signed, Int64.max_signed, Int64.wrap, Int64.modulus.
  intros H. rewrite Z.mod_small; lia.
Qed.

Lemma wrap_range z : Int64.in_range (Int64.wrap z).
Proof.
  unfold Int64.in_range, Int64.min_signed, Int64.max_signed, Int64.wrap, Int64.modulus.
  pose proof (Z.mod_pos_bound (z + 2 ^ 63) (2 ^ 64) ltac:(lia)). lia.
Qed.

Lemma wrap_0 : Int64.wrap 0 = 0.
Proof. reflexivity. Qed.

End Int64Facts.

(** ** The sorted vector *)

Module sorted_vectorFacts.

Import sorted_vector.

Lemma In_insert x v : In x (insert x v).
Proof.
  induction v as [|y v IH]; simpl.
  - now left.
  - destruct (N.ltb_spec x y); [now left|].
    destruct (N.eqb_spec x y); [subst; now left|].
    now right.
Qed.

Lemma In_insert_iff x y v : In y (insert x v) <-> y = x \/ In y v.
Proof.
  induction v as [|z v IH]; simpl.
  - intuition congruence.
  - destruct (N.ltb_spec x z); simpl; [intuition congruence|].
    destruct (N.eqb_spec x z); simpl; [subst; intuition congruence|].
    rewrite IH. intuition congruence.
Qed.

Lemma insert_sorted x v : sorted v -> sorted (insert x v).
Proof.
  unfold sorted. induction 1 as [|y v Hs IH Hall]; simpl.
  - repeat constructor.
  - destruct (N.ltb_spec x y) as [Hlt|Hge].
    + constructor; [now constructor|].
      constructor; [assumption|].
      eapply Forall_impl; [|exact Hall]. intros z Hz. simpl in Hz. lia.
    + destruct (N.eqb_spec x y) as [->|Hne]; [now constructor|].
      constructor; [assumption|].
      rewrite Forall_forall in *. intros z Hz.
      apply In_insert_iff in Hz. destruct Hz as [->|Hz]; [lia|auto].
Qed.

Lemma In_erase x y v : In y (erase x v) -> In y v.
Proof.
  induction v as [|z v IH]; simpl; [tauto|].
  destruct (N.ltb_spec z x); simpl; [intuition|].
  destruct (N.eqb_spec x z); simpl; intuition.
Qed.

Lemma erase_sorted x v : sorted v -> sorted (erase x v).
Proof.
  unfold sorted. induction 1 as [|y v Hs IH Hall]; simpl.
  - constructor.
  - destruct (N.ltb_spec y x).
    + constructor; [assumption|].
      rewrite Forall_forall in *. intros z Hz. apply Hall. eapply In_erase; eauto.
    + destruct (N.eqb_spec x y); [assumption|now constructor].
Qed.

Lemma sorted_head_notin y v : sorted (y :: v) -> ~ In y v.
Proof.
  intros Hs Hin. inversion Hs as [|? ? _ Hall]; subst.
  rewrite Forall_forall in Hall. specialize (Hall _ Hin). simpl in Hall. lia.
Qed.

Lemma erase_notin x v : sorted v -> ~ In x (erase x v).
Proof.
  unfold sorted. induction 1 as [|y v Hs IH Hall]; simpl; [tauto|].
  destruct (N.ltb_spec y x) as [Hlt|Hge].
  - simpl. intros [->|Hin]; [lia|auto].
  - destruct (N.eqb_spec x y) as [->|Hne].
    + apply sorted_head_notin. now constructor.
    + simpl. intros [->|Hin]; [congruence|].
      rewrite Forall_forall in Hall. specialize (Hall _ Hin). simpl in Hall. lia.
Qed.

Lemma erase_absent x v : sorted v -> ~ In x v -> erase x v = v.
Proof.
  unfold sorted. induction 1 as [|y v Hs IH Hall]; simpl; [reflexivity|].
  intros Hnin.
  destruct (N.ltb_spec y x); [f_equal; apply IH; tauto|].
  destruct (N.eqb_spec x y); [subst; tauto|reflexivity].
Qed.

End sorted_vectorFacts.

(** ** The recalculated sum *)

Module SumFacts.

Import sorted_vector sorted_vectorFacts Int64Facts.

Lemma recalculation_from s v a :
  fold_left
    (fun acc pEachImpGraphic =>
       if negb (isSwappedOut (graphics s pEachImpGraphic))
       then Int64.add acc (getGraphicSizeBytes s pEachImpGraphic)
       else acc)
    v (Int64.wrap a)
  = Int64.wrap (a + sumOver (counted s) v).
Proof.
  revert a. induction v as [|p v IH]; intros a; simpl.
  - f_equal. ring.
  - unfold counted at 1. destruct (isSwappedOut (graphics s p)); simpl.
    + apply IH.
    + unfold Int64.add. rewrite wrap_add_l, IH. f_equal. ring.
Qed.

Lemma calculatedSize_literalSum s : calculatedSize s = Int64.wrap (literalSum s).
Proof.
  unfold calculatedSize, literalSum.
  rewrite <- wrap_0 at 1. now rewrite recalculation_from.
Qed.

Lemma sumOver_ext c c' v :
  (forall q, In q v -> c' q = c q) -> sumOver c' v = sumOver c v.
Proof.
  induction v as [|y v IH]; simpl; intros H; [reflexivity|].
  rewrite H by now left. rewrite IH; [reflexivity|]. intros q Hq. apply H. now right.
Qed.

Lemma sumOver_erase_member c x v :
  sorted v -> In x v -> sumOver c (erase x v) = sumOver c v - c x.
Proof.
  unfold sorted. induction 1 as [|y v Hs IH Hall]; simpl; [tauto|].
  intros Hin.
  destruct (N.ltb_spec y x) as [Hlt|Hge]; simpl.
  - destruct Hin as [->|Hin]; [lia|]. rewrite IH by assumption. ring.
  - destruct (N.eqb_spec x y) as [->|Hne]; [ring|].
    destruct Hin as [->|Hin]; [congruence|].
    rewrite Forall_forall in Hall. specialize (Hall _ Hin). simpl in Hall. lia.
Qed.

Lemma sumOver_update c c' p v :
  sorted v -> In p v -> (forall q, q <> p -> c' q = c q) ->
  sumOver c' v = sumOver c v - c p + c' p.
Proof.
  unfold sorted. induction 1 as [|y v Hs IH Hall]; simpl; [tauto|].
  intros Hin Hagree.
  destruct (N.eq_dec y p) as [->|Hne].
  - rewrite (sumOver_ext c c' v); [ring|].
    intros q Hq. apply Hagree. intros ->.
    eapply sorted_head_notin; [constructor; eassumption|assumption].
  - destruct Hin as [->|Hin]; [congruence|].
    rewrite IH by assumption. rewrite (Hagree y Hne). ring.
Qed.

Lemma counted_setGraphic_other p g s q :
  q <> p -> counted (setGraphic p g s) q = counted s q.
Proof.
  intros Hne. unfold counted, getGraphicSizeBytes, setGraphic; simpl.
  destruct (N.eqb_spec q p); [congruence|reflexivity].
Qed.

Lemma graphics_setGraphic_same p g s : graphics (setGraphic p g s) p = g.
Proof. unfold setGraphic; simpl. now rewrite N.eqb_refl. Qed.

Lemma literalSum_setGraphic p g s :
  sorted (m_pImpGraphicList (manager s)) ->
  In p (m_pImpGraphicList (manager s)) ->
  literalSum (setGraphic p g s)
  = literalSum s - counted s p + counted (setGraphic p g s) p.
Proof.
  intros Hs Hin. unfold literalSum.
  apply (sumOver_update (counted s) (counted (setGraphic p g s)) p); auto.
  intros q Hq. now apply counted_setGraphic_other.
Qed.

(** Erasing an object that is swapped out does not change the sum. *)
Lemma calculatedSize_erase_swappedOut p s :
  isSwappedOut (graphics s p) = true ->
  calculatedSize
    (with_manager
       (set_m_pImpGraphicList (erase p (m_pImpGraphicList (manager s))) (manager s)) s)
  = calculatedSize s.
Proof.
  intros Hout. unfold calculatedSize; simpl.
  generalize 0 as a.
  induction (m_pImpGraphicList (manager s)) as [|y v IH]; intros a; simpl; [reflexivity|].
  destruct (N.ltb_spec y p); simpl; [apply IH|].
  destruct (N.eqb_spec p y) as [<-|Hne]; [|reflexivity].
  now rewrite Hout.
Qed.

End SumFacts.

(** ** The sweep *)

(** Traces made of unlock, call, lock. *)

Lemma In_swapOut_blocks p pre calls :
  In (EvSwapOut p pre) (flat_map swapOutBlock calls) -> In (p, pre) calls.
Proof.
  induction calls as [|[q s] calls IH]; simpl; [tauto|].
  intros [H|[H|[H|H]]]; try discriminate.
  - left. now inversion H.
  - right. auto.
Qed.

Lemma blocks_lock_discipline calls rest :
  neverHeldAcrossSwapOut true (flat_map swapOutBlock calls ++ rest)
  = neverHeldAcrossSwapOut true rest.
Proof.
  induction calls as [|c calls IH]; simpl; [reflexivity|exact IH].
Qed.

Lemma swapOutCalls_app t1 t2 : swapOutCalls (t1 ++ t2) = swapOutCalls t1 ++ swapOutCalls t2.
Proof.
  induction t1 as [|e t1 IH]; simpl; [reflexivity|].
  destruct e; simpl; now rewrite ?IH.
Qed.

Lemma swapOutCalls_blocks calls : swapOutCalls (flat_map swapOutBlock calls) = map fst calls.
Proof. induction calls as [|c calls IH]; simpl; [reflexivity|now rewrite IH]. Qed.

Section SweepFacts.

Variable ticks_per_second : Z.
Variable swapOut : ImpGraphicPtr -> State -> State.


Lemma loopBody_evictable p s :
  loopBody ticks_per_second swapOut p s
  = if evictable ticks_per_second s p then (swapOut p s, swapOutBlock (p, s)) else (s, []).
Proof.
  unfold loopBody, evictable, idleTicks, swapOutBlock.
  destruct (isSwappedOut (graphics s p)); simpl; [reflexivity|].
  destruct (100000 <? getGraphicSizeBytes s p); simpl; [|reflexivity].
  destruct (mpContext (graphics s p)); simpl; [reflexivity|].
  destruct (mnAllowedIdleTime (manager s) <? _); reflexivity.
Qed.

Lemma loopOver_cons p rest s :
  loopOver ticks_per_second swapOut (p :: rest) s
  = if mnUsedSize (manager s) <? sweepTarget (mnMemoryLimit (manager s))
    then (s, [])
    else (fst (loopOver ticks_per_second swapOut rest (fst (loopBody ticks_per_second swapOut p s))),
          snd (loopBody ticks_per_second swapOut p s) ++ snd (loopOver ticks_per_second swapOut rest (fst (loopBody ticks_per_second swapOut p s)))).
Proof.
  simpl. destruct (_ <? _); [reflexivity|].
  destruct (loopBody ticks_per_second swapOut p s) as [s1 t1]. simpl.
  destruct (loopOver ticks_per_second swapOut rest s1); reflexivity.
Qed.

Lemma loopOver_belowTarget v s : belowTarget s -> loopOver ticks_per_second swapOut v s = (s, []).
Proof.
  unfold belowTarget. intros H. destruct v as [|p v]; [reflexivity|].
  rewrite loopOver_cons.
  destruct (Z.ltb_spec (mnUsedSize (manager s)) (sweepTarget (mnMemoryLimit (manager s))));
    [reflexivity|lia].
Qed.

Lemma loopOver_app_stop pre post s :
  belowTarget (fst (loopOver ticks_per_second swapOut pre s)) -> loopOver ticks_per_second swapOut (pre ++ post) s = loopOver ticks_per_second swapOut pre s.
Proof.
  revert s. induction pre as [|p pre IH]; intros s H.
  - simpl in *. now apply loopOver_belowTarget.
  - rewrite <- app_comm_cons, !loopOver_cons in *.
    destruct (_ <? _); [reflexivity|].
    simpl in H. now rewrite IH.
Qed.


(** Every call of the sweep is on a snapshotted object that passed the
    tests in the state the call is made in. *)
Lemma loopOver_calls v s :
  exists calls,
    snd (loopOver ticks_per_second swapOut v s) = flat_map swapOutBlock calls
    /\ Forall (fun c => In (fst c) v /\ evictable ticks_per_second (snd c) (fst c) = true) calls.
Proof.
  revert s. induction v as [|p v IH]; intros s.
  - exists []. now split.
  - rewrite loopOver_cons.
    destruct (_ <? _); [exists []; now split|].
    rewrite loopBody_evictable.
    destruct (evictable ticks_per_second s p) eqn:He; simpl.
    + destruct (IH (swapOut p s)) as (calls & Ht & Hall).
      exists ((p, s) :: calls). split.
      * simpl. now rewrite Ht.
      * constructor; [split; [now left|exact He]|].
        eapply Forall_impl; [|exact Hall]. intros c [Hin Hc]. split; [now right|exact Hc].
    + destruct (IH s) as (calls & Ht & Hall).
      exists calls. split; [exact Ht|].
      eapply Forall_impl; [|exact Hall]. intros c [Hin Hc]. split; [now right|exact Hc].
Qed.

Lemma loopGraphicsAndSwapOut_trace s :
  snd (loopGraphicsAndSwapOut ticks_per_second swapOut s)
  = EvSnapshot (m_pImpGraphicList (manager s))
      :: snd (loopOver ticks_per_second swapOut (m_pImpGraphicList (manager s)) s).
Proof.
  unfold loopGraphicsAndSwapOut.
  now destruct (loopOver ticks_per_second swapOut (m_pImpGraphicList (manager s)) s).
Qed.

Lemma loopGraphicsAndSwapOut_state s :
  fst (loopGraphicsAndSwapOut ticks_per_second swapOut s) = fst (loopOver ticks_per_second swapOut (m_pImpGraphicList (manager s)) s).
Proof.
  unfold loopGraphicsAndSwapOut.
  now destruct (loopOver ticks_per_second swapOut (m_pImpGraphicList (manager s)) s).
Qed.

Lemma reduceGraphicMemory_suppressed s :
  suppressed s = true -> reduceGraphicMemory ticks_per_second swapOut s = (s, []).
Proof.
  unfold suppressed, reduceGraphicMemory.
  destruct (mbSwapEnabled (manager s)); simpl; [|reflexivity].
  destruct (_ <? _); simpl; [reflexivity|].
  destruct (mbReducingGraphicMemory (manager s)); [reflexivity|discriminate].
Qed.

Lemma reduceGraphicMemory_runs s :
  suppressed s = false ->
  snd (reduceGraphicMemory ticks_per_second swapOut s) = snd (loopGraphicsAndSwapOut ticks_per_second swapOut (guarded s))
  /\ mbReducingGraphicMemory (manager (fst (reduceGraphicMemory ticks_per_second swapOut s))) = false
  /\ accounted (fst (reduceGraphicMemory ticks_per_second swapOut s)).
Proof.
  unfold suppressed, reduceGraphicMemory, guarded.
  destruct (mbSwapEnabled (manager s)); simpl; [|discriminate].
  destruct (_ <? _); simpl; [discriminate|].
  destruct (mbReducingGraphicMemory (manager s)); [discriminate|]. intros _.
  destruct (loopGraphicsAndSwapOut ticks_per_second swapOut _) as [s2 t]. simpl.
  repeat split.
  unfold accounted.
  destruct (Z.eqb_spec (calculatedSize s2) (mnUsedSize (manager s2))) as [He|Hne]; simpl.
  - symmetry. exact He.
  - reflexivity.
Qed.

End SweepFacts.

(** ** Whole seconds *)

Module SecondsFacts.



End SecondsFacts.

Section SweepClaims.

Variable ticks_per_second : Z.
Variable swapOut : ImpGraphicPtr -> State -> State.

Lemma evictable_true s p :
  evictable ticks_per_second s p = true ->
  isSwappedOut (graphics s p) = false
  /\ 100000 < getGraphicSizeBytes s p
  /\ mpContext (graphics s p) = false
  /\ mnAllowedIdleTime (manager s)
     < duration_cast_seconds ticks_per_second (idleTicks s p).
Proof.
  unfold evictable. rewrite !andb_true_iff, !negb_true_iff, !Z.ltb_lt. tauto.
Qed.

Lemma sweep_call_evictable s p pre :
  In (EvSwapOut p pre) (snd (loopGraphicsAndSwapOut ticks_per_second swapOut s)) ->
  In p (m_pImpGraphicList (manager s)) /\ evictable ticks_per_second pre p = true.
Proof.
  rewrite loopGraphicsAndSwapOut_trace.
  destruct (loopOver_calls ticks_per_second swapOut (m_pImpGraphicList (manager s)) s)
    as (calls & Ht & Hall).
  rewrite Ht. intros [H|H]; [discriminate|].
  apply In_swapOut_blocks in H.
  rewrite Forall_forall in Hall. exact (Hall _ H).
Qed.

(** C4 (amended).  The sweep halts as soon as [mnUsedSize] is below
    [sal_Int64(mnMemoryLimit * 0.7)], the product being taken in double
    precision and cut to its integer part.  The test precedes every
    snapshotted object: when the objects [pre] have been dealt with and the
    counter is below the target, none of the remaining objects [post] is
    examined or swapped out; the sweep ends in the state and with the calls
    of the sweep over [pre] alone. *)
Theorem sweep_halts_below_target pre post s :
  m_pImpGraphicList (manager s) = pre ++ post ->
  belowTarget (fst (loopOver ticks_per_second swapOut pre s)) ->
  loopGraphicsAndSwapOut ticks_per_second swapOut s
  = (fst (loopOver ticks_per_second swapOut pre s),
     EvSnapshot (pre ++ post) :: snd (loopOver ticks_per_second swapOut pre s))
  /\ (forall p,
        In p (swapOutCalls (snd (loopGraphicsAndSwapOut ticks_per_second swapOut s))) ->
        In p pre).
Proof.
  intros Hreg Hbelow.
  assert (Heq : loopGraphicsAndSwapOut ticks_per_second swapOut s
                = (fst (loopOver ticks_per_second swapOut pre s),
                   EvSnapshot (pre ++ post)
                     :: snd (loopOver ticks_per_second swapOut pre s))).
  { unfold loopGraphicsAndSwapOut. rewrite Hreg.
    rewrite (loopOver_app_stop _ _ pre post s Hbelow).
    now destruct (loopOver ticks_per_second swapOut pre s). }
  split; [exact Heq|].
  intros p. rewrite Heq. simpl.
  destruct (loopOver_calls ticks_per_second swapOut pre s) as (calls & Ht & Hall).
  rewrite Ht, swapOutCalls_blocks, in_map_iff.
  intros ([q pre'] & <- & Hin).
  rewrite Forall_forall in Hall. exact (proj1 (Hall _ Hin)).
Qed.

(** C5.  The sweep calls [swapOut] only on an object of its snapshot that,
    in the state the call is made in, is not swapped out, has a size above
    100,000 bytes and has no reader context; so it never calls it on an
    object that is swapped out, or of at most 100,000 bytes, or with an
    operation in progress. *)
Theorem sweep_swaps_only_eligible s p pre :
  In (EvSwapOut p pre) (snd (loopGraphicsAndSwapOut ticks_per_second swapOut s)) ->
  In p (m_pImpGraphicList (manager s))
  /\ isSwappedOut (graphics pre p) = false
  /\ 100000 < getGraphicSizeBytes pre p
  /\ mpContext (graphics pre p) = false.
Proof.
  intros H. apply sweep_call_evictable in H. destruct H as [Hin He].
  apply evictable_true in He. tauto.
Qed.


(** C7.  [reduceGraphicMemory] returns at once, with the state as it was
    and without any action, when swapping is disabled, or the counter is
    below the limit, or a reduction is already in progress; it returns
    normally in each case.  A run that is not suppressed ends with the
    flag [mbReducingGraphicMemory] cleared. *)
Theorem reduceGraphicMemory_no_op_when_suppressed s :
  (mbSwapEnabled (manager s) = false
   \/ mnUsedSize (manager s) < mnMemoryLimit (manager s)
   \/ mbReducingGraphicMemory (manager s) = true ->
   reduceGraphicMemory ticks_per_second swapOut s = (s, []))
  /\ (mbSwapEnabled (manager s) = true ->
      mnMemoryLimit (manager s) <= mnUsedSize (manager s) ->
      mbReducingGraphicMemory (manager s) = false ->
      mbReducingGraphicMemory
        (manager (fst (reduceGraphicMemory ticks_per_second swapOut s))) = false).
Proof.
  split.
  - intros H. apply reduceGraphicMemory_suppressed. unfold suppressed.
    rewrite !orb_true_iff, negb_true_iff, Z.ltb_lt. tauto.
  - intros He Hu Hg.
    apply reduceGraphicMemory_runs. unfold suppressed. rewrite He, Hg. simpl.
    rewrite orb_false_r. apply Z.ltb_ge. exact Hu.
Qed.

Lemma reduceGraphicMemory_trace s :
  exists calls,
    snd (reduceGraphicMemory ticks_per_second swapOut s) = []
    \/ snd (reduceGraphicMemory ticks_per_second swapOut s)
       = EvSnapshot (m_pImpGraphicList (manager s)) :: flat_map swapOutBlock calls.
Proof.
  destruct (suppressed s) eqn:Hs.
  - exists []. left. now rewrite reduceGraphicMemory_suppressed.
  - destruct (reduceGraphicMemory_runs ticks_per_second swapOut s Hs) as (Ht & _).
    rewrite Ht, loopGraphicsAndSwapOut_trace.
    destruct (loopOver_calls ticks_per_second swapOut
                (m_pImpGraphicList (manager (guarded s))) (guarded s)) as (calls & Hc & _).
    exists calls. right. now rewrite Hc.
Qed.

Lemma reduceGraphicMemory_lock_discipline s rest :
  neverHeldAcrossSwapOut true (snd (reduceGraphicMemory ticks_per_second swapOut s) ++ rest)
  = neverHeldAcrossSwapOut true rest.
Proof.
  destruct (reduceGraphicMemory_trace s) as (calls & [H|H]); rewrite H; simpl.
  - reflexivity.
  - apply blocks_lock_discipline.
Qed.

Lemma makeSpace_lock_discipline s rest :
  neverHeldAcrossSwapOut true (snd (makeSpace ticks_per_second swapOut s) ++ rest)
  = neverHeldAcrossSwapOut true rest.
Proof.
  unfold makeSpace. destruct (_ <? _); [apply reduceGraphicMemory_lock_discipline|reflexivity].
Qed.

Lemma registerGraphic_trace p s :
  exists info,
    snd (registerGraphic ticks_per_second swapOut p s)
    = EvLock :: snd (makeSpace ticks_per_second swapOut s) ++ info ++ [EvUnlock]
    /\ (info = []
        \/ info = [EvInfo (Int64.add (mnUsedSize (manager (fst (makeSpace ticks_per_second swapOut s))))
                                     (getGraphicSizeBytes (fst (makeSpace ticks_per_second swapOut s)) p))
                          (calculatedSize (fst (registerGraphic ticks_per_second swapOut p s)))]).
Proof.
  unfold registerGraphic.
  destruct (makeSpace ticks_per_second swapOut s) as [s1 t]. cbn [fst snd].
  match goal with |- context [negb ?b] => destruct b end; cbn [negb fst snd].
  - exists []. split; [reflexivity|now left].
  - eexists. split; [reflexivity|]. right. reflexivity.
Qed.

(** C9.  Seen from the thread that runs it, the sweep does nothing but
    take the snapshot and then, for each object it swaps out, release the
    mutex, call [swapOut], and take the mutex again: every call stands
    between an unlock just before and a lock just after.  Hence from any
    entry point, which takes the mutex first, no call of [swapOut] is ever
    made with the mutex held. *)
Theorem swapOut_called_with_mutex_released s :
  (exists calls,
      snd (loopGraphicsAndSwapOut ticks_per_second swapOut s)
      = EvSnapshot (m_pImpGraphicList (manager s)) :: flat_map swapOutBlock calls)
  /\ neverHeldAcrossSwapOut true
       (snd (loopGraphicsAndSwapOut ticks_per_second swapOut s)) = true
  /\ (forall p,
        neverHeldAcrossSwapOut false
          (snd (registerGraphic ticks_per_second swapOut p s)) = true)
  /\ neverHeldAcrossSwapOut false
       (snd (SwapOutTimerHandler ticks_per_second swapOut s)) = true.
Proof.
  destruct (loopOver_calls ticks_per_second swapOut (m_pImpGraphicList (manager s)) s)
    as (calls & Hc & _).
  repeat split.
  - exists calls. now rewrite loopGraphicsAndSwapOut_trace, Hc.
  - rewrite loopGraphicsAndSwapOut_trace, Hc. simpl.
    rewrite <- (app_nil_r (flat_map swapOutBlock calls)).
    now rewrite blocks_lock_discipline.
  - intros p. destruct (registerGraphic_trace p s) as (info & Ht & Hinfo).
    rewrite Ht. simpl. rewrite makeSpace_lock_discipline.
    destruct Hinfo as [->| ->]; reflexivity.
  - unfold SwapOutTimerHandler.
    destruct (reduceGraphicMemory ticks_per_second swapOut (set_maSwapOutTimer false s))
      as [s2 t] eqn:Hr. simpl.
    replace t with (snd (reduceGraphicMemory ticks_per_second swapOut (set_maSwapOutTimer false s)))
      by now rewrite Hr.
    now rewrite reduceGraphicMemory_lock_discipline.
Qed.

End SweepClaims.

(** ** Registration *)

Section RegisterClaims.

Variable ticks_per_second : Z.
Variable swapOut : ImpGraphicPtr -> State -> State.

Lemma makeSpace_cases s :
  makeSpace ticks_per_second swapOut s
  = if (mnMemoryLimit (manager s) <? mnUsedSize (manager s)) && negb (suppressed s)
    then reduceGraphicMemory ticks_per_second swapOut s
    else (s, []).
Proof.
  unfold makeSpace. destruct (_ <? _); simpl; [|reflexivity].
  destruct (suppressed s) eqn:Hs; simpl; [|reflexivity].
  now apply reduceGraphicMemory_suppressed.
Qed.

Lemma makeSpace_no_snapshot_iff s :
  existsb isSnapshot (snd (makeSpace ticks_per_second swapOut s))
  = (mnMemoryLimit (manager s) <? mnUsedSize (manager s)) && negb (suppressed s).
Proof.
  rewrite makeSpace_cases.
  destruct ((mnMemoryLimit (manager s) <? mnUsedSize (manager s)) && negb (suppressed s))
    eqn:Hc; [|reflexivity].
  apply andb_true_iff in Hc. destruct Hc as [_ Hs]. apply negb_true_iff in Hs.
  destruct (reduceGraphicMemory_runs ticks_per_second swapOut s Hs) as (Ht & _).
  now rewrite Ht, loopGraphicsAndSwapOut_trace.
Qed.


Lemma registerGraphic_result p s :
  let s1 := fst (makeSpace ticks_per_second swapOut s) in
  let s' := fst (registerGraphic ticks_per_second swapOut p s) in
  m_pImpGraphicList (manager s')
  = sorted_vector.insert p (m_pImpGraphicList (manager s1))
  /\ graphics s' = graphics s1
  /\ mnUsedSize (manager s') = calculatedSize s'
  /\ snd (registerGraphic ticks_per_second swapOut p s)
     = EvLock :: snd (makeSpace ticks_per_second swapOut s)
         ++ (if calculatedSize s' =? incremental ticks_per_second swapOut p s then []
             else [EvInfo (incremental ticks_per_second swapOut p s) (calculatedSize s')])
         ++ [EvUnlock].
Proof.
  unfold incremental, registerGraphic.
  destruct (makeSpace ticks_per_second swapOut s) as [s1 t]. cbn [fst snd].
  match goal with |- context [negb (?a =? ?b)] => destruct (Z.eqb_spec a b) as [He|Hne] end;
    cbn [negb fst snd].
  - repeat split; try reflexivity.
    + symmetry. exact He.
    + simpl in He |- *. rewrite He, Z.eqb_refl. reflexivity.
  - repeat split; try reflexivity.
    simpl in Hne |- *.
    match goal with |- context [?a =? ?b] => destruct (Z.eqb_spec a b) as [He|_] end;
      [contradiction|reflexivity].
Qed.


(** C3 (amended).  [registerGraphic] enters the eviction procedure exactly
    when [mnUsedSize] exceeds [mnMemoryLimit] at entry, and the procedure
    runs its sweep exactly when, in addition, swapping is enabled and no
    reduction is in progress.  The sweep then comes first: it is the sweep
    of the state at entry, whose snapshot is the registry at entry, and
    what follows it in the call has neither snapshot nor [swapOut].  A call
    entered with the counter at or below the limit makes no sweep, however
    large the object it registers. *)
Theorem registerGraphic_sweeps_first p s :
  (existsb isSnapshot (snd (registerGraphic ticks_per_second swapOut p s)) = true
   <-> mnMemoryLimit (manager s) < mnUsedSize (manager s)
       /\ mbSwapEnabled (manager s) = true
       /\ mbReducingGraphicMemory (manager s) = false)
  /\ (mnMemoryLimit (manager s) < mnUsedSize (manager s) ->
      makeSpace ticks_per_second swapOut s = reduceGraphicMemory ticks_per_second swapOut s)
  /\ (mnUsedSize (manager s) <= mnMemoryLimit (manager s) ->
      makeSpace ticks_per_second swapOut s = (s, [])
      /\ swapOutCalls (snd (registerGraphic ticks_per_second swapOut p s)) = [])
  /\ (mnMemoryLimit (manager s) < mnUsedSize (manager s) ->
      mbSwapEnabled (manager s) = true ->
      mbReducingGraphicMemory (manager s) = false ->
      exists rest,
        snd (registerGraphic ticks_per_second swapOut p s)
        = EvLock :: snd (loopGraphicsAndSwapOut ticks_per_second swapOut (guarded s)) ++ rest
        /\ existsb isSnapshot rest = false
        /\ swapOutCalls rest = []).
Proof.
  destruct (registerGraphic_result p s) as (_ & _ & _ & Htrace).
  assert (Hsupp : mnMemoryLimit (manager s) < mnUsedSize (manager s) ->
                  (suppressed s = false <-> mbSwapEnabled (manager s) = true
                                            /\ mbReducingGraphicMemory (manager s) = false)).
  { intros Hlt. unfold suppressed.
    destruct (Z.ltb_spec (mnUsedSize (manager s)) (mnMemoryLimit (manager s))); [lia|].
    destruct (mbSwapEnabled (manager s)), (mbReducingGraphicMemory (manager s));
      simpl; intuition congruence. }
  split; [|split; [|split]].
  - rewrite Htrace. simpl. rewrite !existsb_app, makeSpace_no_snapshot_iff.
    replace (existsb isSnapshot
               (if calculatedSize (fst (registerGraphic ticks_per_second swapOut p s))
                   =? incremental ticks_per_second swapOut p s
                then []
                else [EvInfo (incremental ticks_per_second swapOut p s)
                        (calculatedSize (fst (registerGraphic ticks_per_second swapOut p s)))]))
      with false by (destruct (_ =? _); reflexivity).
    simpl. rewrite !orb_false_r, andb_true_iff, negb_true_iff, Z.ltb_lt.
    split.
    + intros [Hlt Hs]. split; [exact Hlt|]. now apply Hsupp.
    + intros (Hlt & He & Hg). split; [exact Hlt|]. apply Hsupp; auto.
  - intros Hlt. unfold makeSpace.
    destruct (Z.ltb_spec (mnMemoryLimit (manager s)) (mnUsedSize (manager s))); [reflexivity|lia].
  - intros Hle.
    assert (Hm : makeSpace ticks_per_second swapOut s = (s, [])).
    { unfold makeSpace.
      destruct (Z.ltb_spec (mnMemoryLimit (manager s)) (mnUsedSize (manager s)));
        [lia|reflexivity]. }
    split; [exact Hm|].
    rewrite Htrace, Hm. simpl. destruct (_ =? _); reflexivity.
  - intros Hlt He Hg.
    assert (Hs : suppressed s = false) by (apply Hsupp; auto).
    eexists. split; [|split].
    + rewrite Htrace. rewrite makeSpace_cases, Hs.
      destruct (Z.ltb_spec (mnMemoryLimit (manager s)) (mnUsedSize (manager s))); [|lia].
      simpl andb. cbv iota.
      rewrite (proj1 (reduceGraphicMemory_runs ticks_per_second swapOut s Hs)).
      reflexivity.
    + rewrite existsb_app. destruct (_ =? _); reflexivity.
    + rewrite swapOutCalls_app. destruct (_ =? _); reflexivity.
Qed.

End RegisterClaims.

(** ** Configuration *)

(** C8 (amended).  No failure of a configuration read leaves
    [setupConfigurationValuesIfPossible], and the constructor always
    yields a manager.  The three values are read and assigned one after
    the other: a value whose read fails, and every value that would be
    read after it, keeps its default (300,000,000 bytes, 10 seconds,
    swapping enabled); a value read before the failing one keeps what was
    read.  All three defaults stay when the first read fails or the
    process is fuzzing. *)
Theorem configuration_failure_keeps_later_defaults cfg :
  (IsFuzzing cfg = true \/ GraphicMemoryLimit_get cfg = None ->
   mnMemoryLimit (Manager_ctor cfg) = 300000000
   /\ mnAllowedIdleTime (Manager_ctor cfg) = 10
   /\ mbSwapEnabled (Manager_ctor cfg) = true)
  /\ (GraphicAllowedIdleTime_get cfg = None ->
      mnAllowedIdleTime (Manager_ctor cfg) = 10
      /\ mbSwapEnabled (Manager_ctor cfg) = true)
  /\ (GraphicSwappingEnabled_get cfg = None ->
      mbSwapEnabled (Manager_ctor cfg) = true)
  /\ (forall l,
        IsFuzzing cfg = false -> GraphicMemoryLimit_get cfg = Some l ->
        mnMemoryLimit (Manager_ctor cfg) = l)
  /\ (forall l i,
        IsFuzzing cfg = false -> GraphicMemoryLimit_get cfg = Some l ->
        GraphicAllowedIdleTime_get cfg = Some i ->
        mnAllowedIdleTime (Manager_ctor cfg) = i)
  /\ (forall r r', tryBlock cfg r = Thrown r' ->
        IsFuzzing cfg = false -> setupConfigurationValuesIfPossible cfg r = r').
Proof.
  unfold Manager_ctor, setupConfigurationValuesIfPossible, tryBlock.
  destruct cfg as [fz [l|] [i|] [b|]]; simpl;
    repeat split; intros;
    repeat match goal with
           | H : _ \/ _ |- _ => destruct H
           | H : _ = _ |- _ => first [discriminate H | injection H as H; subst | subst]
           end;
    try reflexivity; try discriminate;
    destruct fz; simpl in *; try reflexivity; try discriminate; congruence.
Qed.

(** ** Unregistration *)

Lemma unregisterGraphic_calculatedSize p s :
  isSwappedOut (graphics s p) = true ->
  calculatedSize (fst (unregisterGraphic p s)) = calculatedSize s.
Proof.
  intros Hout. unfold unregisterGraphic. cbn [fst].
  now rewrite (SumFacts.calculatedSize_erase_swappedOut p
                 (sub_mnUsedSize (getGraphicSizeBytes s p) s)).
Qed.

Lemma calculatedSize_in_range s : Int64.in_range (calculatedSize s).
Proof. rewrite SumFacts.calculatedSize_literalSum. apply Int64Facts.wrap_range. Qed.

(** C10.  [unregisterGraphic] takes the size the object reports now
    (nothing when it is not available) off the counter, whether or not the
    object is swapped out, erases the object from the registry, touches no
    object, and recalculates nothing.  So when the counter was the sum and
    the object is swapped out, available and of [n > 0] bytes, the counter
    ends [n] below the sum of the remaining members, until a later
    registration recalculates it. *)
Theorem unregisterGraphic_subtracts_reported_size ticks_per_second swapOut p s :
  let s' := fst (unregisterGraphic p s) in
  mnUsedSize (manager s') = Int64.sub (mnUsedSize (manager s)) (getGraphicSizeBytes s p)
  /\ m_pImpGraphicList (manager s') = sorted_vector.erase p (m_pImpGraphicList (manager s))
  /\ graphics s' = graphics s
  /\ (sorted_vector.sorted (m_pImpGraphicList (manager s)) ->
      ~ In p (m_pImpGraphicList (manager s')))
  /\ (forall n,
        accounted s ->
        isSwappedOut (graphics s p) = true ->
        isAvailable (graphics s p) = true ->
        getSizeBytes (graphics s p) = n ->
        0 < n ->
        calculatedSize s' = calculatedSize s
        /\ mnUsedSize (manager s') = Int64.sub (calculatedSize s') n
        /\ (Int64.min_signed <= calculatedSize s' - n ->
            mnUsedSize (manager s') = calculatedSize s' - n
            /\ mnUsedSize (manager s') <> calculatedSize s'))
  /\ (forall q, accounted (fst (registerGraphic ticks_per_second swapOut q s'))).
Proof.
  intros s'.
  assert (Hused : mnUsedSize (manager s')
                  = Int64.sub (mnUsedSize (manager s)) (getGraphicSizeBytes s p))
    by reflexivity.
  split; [exact Hused|].
  split; [reflexivity|].
  split; [reflexivity|].
  split; [intros Hs; now apply sorted_vectorFacts.erase_notin|].
  split; [|intros q; apply registerGraphic_result].
  intros n Hacc Hout Hav Hsz Hpos.
  assert (Hcalc : calculatedSize s' = calculatedSize s)
    by now apply unregisterGraphic_calculatedSize.
  assert (Hn : getGraphicSizeBytes s p = n)
    by (unfold getGraphicSizeBytes; now rewrite Hav).
  split; [exact Hcalc|].
  rewrite Hused, Hn, Hacc, Hcalc.
  split; [reflexivity|].
  intros Hmin. unfold Int64.sub.
  rewrite Int64Facts.wrap_in_range; [lia|].
  pose proof (calculatedSize_in_range s) as Hr.
  unfold Int64.in_range in *. lia.
Qed.

(** ** The accounting invariant along runs *)

Lemma accounted_shift s s' d :
  accounted s ->
  literalSum s' = literalSum s + d ->
  mnUsedSize (manager s') = Int64.wrap (mnUsedSize (manager s) + d) ->
  accounted s'.
Proof.
  unfold accounted. intros Hacc HL Hu.
  rewrite Hu, Hacc, !SumFacts.calculatedSize_literalSum, HL.
  apply Int64Facts.wrap_add_l.
Qed.

Lemma accounted_literalSum s :
  accounted s -> Int64.in_range (literalSum s) -> mnUsedSize (manager s) = literalSum s.
Proof.
  unfold accounted. intros -> Hr.
  rewrite SumFacts.calculatedSize_literalSum. now apply Int64Facts.wrap_in_range.
Qed.

Lemma counted_zero_size s p : getGraphicSizeBytes s p = 0 -> counted s p = 0.
Proof. unfold counted. intros ->. now destruct (isSwappedOut _). Qed.

Lemma unregisterGraphic_accounted p s :
  sorted_vector.sorted (m_pImpGraphicList (manager s)) ->
  accounted s ->
  reportsExactly s (OpUnregister p) ->
  accounted (fst (unregisterGraphic p s)).
Proof.
  intros Hs Hacc Hrep.
  apply (accounted_shift s _ (- getGraphicSizeBytes s p) Hacc); [|reflexivity].
  change (literalSum (fst (unregisterGraphic p s)))
    with (sumOver (counted s) (sorted_vector.erase p (m_pImpGraphicList (manager s)))).
  unfold literalSum.
  destruct (in_dec N.eq_dec p (m_pImpGraphicList (manager s))) as [Hin|Hnin].
  - rewrite SumFacts.sumOver_erase_member by assumption.
    destruct Hrep as [H0|[_ Hsw]].
    + rewrite H0, (counted_zero_size s p H0). ring.
    + unfold counted. rewrite Hsw. ring.
  - rewrite sorted_vectorFacts.erase_absent by assumption.
    destruct Hrep as [H0|[Hin _]]; [|contradiction].
    rewrite H0. ring.
Qed.

Lemma swappedOut_accounted p g n s :
  sorted_vector.sorted (m_pImpGraphicList (manager s)) ->
  accounted s ->
  reportsExactly s (OpSwappedOut p g n) ->
  accounted (fst (swappedOut p n (setGraphic p g s))).
Proof.
  intros Hs Hacc (Hp & Hin & Hsw & Hg & Hn).
  apply (accounted_shift s _ (- n) Hacc).
  - unfold swappedOut. destruct (N.eqb_spec p nullptr); [contradiction|]. cbn [fst].
    change (literalSum (sub_mnUsedSize n (setGraphic p g s)))
      with (literalSum (setGraphic p g s)).
    rewrite SumFacts.literalSum_setGraphic by assumption.
    unfold counted at 2. rewrite SumFacts.graphics_setGraphic_same, Hg.
    unfold counted. rewrite Hsw, Hn. ring.
  - unfold swappedOut. destruct (N.eqb_spec p nullptr); [contradiction|]. reflexivity.
Qed.

Lemma swappedIn_accounted p g n s :
  sorted_vector.sorted (m_pImpGraphicList (manager s)) ->
  accounted s ->
  reportsExactly s (OpSwappedIn p g n) ->
  accounted (fst (swappedIn p n (setGraphic p g s))).
Proof.
  intros Hs Hacc (Hp & Hin & Hsw & Hg & Hn).
  apply (accounted_shift s _ n Hacc).
  - unfold swappedIn. destruct (N.eqb_spec p nullptr); [contradiction|]. cbn [fst].
    change (literalSum (add_mnUsedSize n (setGraphic p g s)))
      with (literalSum (setGraphic p g s)).
    rewrite SumFacts.literalSum_setGraphic by assumption.
    unfold counted at 2. rewrite SumFacts.graphics_setGraphic_same, Hg.
    unfold counted. rewrite Hsw, Hn. ring.
  - unfold swappedIn. destruct (N.eqb_spec p nullptr); [contradiction|]. reflexivity.
Qed.

Lemma changeExisting_accounted p g n s :
  sorted_vector.sorted (m_pImpGraphicList (manager s)) ->
  accounted s ->
  reportsExactly s (OpChangeExisting p g n) ->
  accounted (fst (changeExisting p n (setGraphic p g s))).
Proof.
  intros Hs Hacc (Hin & Hsw & Hg & Hn).
  apply (accounted_shift s _ (- n + getGraphicSizeBytes (setGraphic p g s) p) Hacc).
  - change (literalSum (fst (changeExisting p n (setGraphic p g s))))
      with (literalSum (setGraphic p g s)).
    rewrite SumFacts.literalSum_setGraphic by assumption.
    unfold counted at 2. rewrite SumFacts.graphics_setGraphic_same, Hg.
    unfold counted. rewrite Hsw, Hn. ring.
  - unfold changeExisting. cbn [fst].
    change (mnUsedSize (manager (add_mnUsedSize ?x ?y)))
      with (Int64.add (mnUsedSize (manager y)) x).
    unfold Int64.add, Int64.sub.
    change (mnUsedSize (manager (sub_mnUsedSize n (setGraphic p g s))))
      with (Int64.wrap (mnUsedSize (manager s) - n)).
    rewrite Int64Facts.wrap_add_l.
    change (getGraphicSizeBytes (sub_mnUsedSize n (setGraphic p g s)) p)
      with (getGraphicSizeBytes (setGraphic p g s) p).
    f_equal. ring.
Qed.

Section RunClaims.

Variable ticks_per_second : Z.
Variable swapOut : ImpGraphicPtr -> State -> State.

(** [swapOut] reaches the registry through the manager only, which keeps
    it sorted. *)
Hypothesis swapOut_keeps_sorted :
  forall p s,
    sorted_vector.sorted (m_pImpGraphicList (manager s)) ->
    sorted_vector.sorted (m_pImpGraphicList (manager (swapOut p s))).

Lemma loopOver_sorted v s :
  sorted_vector.sorted (m_pImpGraphicList (manager s)) ->
  sorted_vector.sorted
    (m_pImpGraphicList (manager (fst (loopOver ticks_per_second swapOut v s)))).
Proof.
  revert s. induction v as [|p v IH]; intros s Hs; [exact Hs|].
  rewrite loopOver_cons. destruct (_ <? _); [exact Hs|]. cbn [fst].
  apply IH. rewrite loopBody_evictable.
  destruct (evictable ticks_per_second s p); cbn [fst]; auto.
Qed.

Lemma reduceGraphicMemory_sorted s :
  sorted_vector.sorted (m_pImpGraphicList (manager s)) ->
  sorted_vector.sorted
    (m_pImpGraphicList (manager (fst (reduceGraphicMemory ticks_per_second swapOut s)))).
Proof.
  intros Hs. unfold reduceGraphicMemory.
  destruct (negb _); [exact Hs|].
  destruct (_ <? _); [exact Hs|].
  destruct (mbReducingGraphicMemory _); [exact Hs|].
  pose proof (loopOver_sorted (m_pImpGraphicList (manager (guarded s))) (guarded s) Hs) as Hl.
  rewrite <- (loopGraphicsAndSwapOut_state ticks_per_second swapOut (guarded s)) in Hl.
  fold (guarded s).
  destruct (loopGraphicsAndSwapOut ticks_per_second swapOut (guarded s)) as [s2 t].
  cbn [fst] in *. destruct (negb _); exact Hl.
Qed.

Lemma step_sorted op s :
  sorted_vector.sorted (m_pImpGraphicList (manager s)) ->
  sorted_vector.sorted
    (m_pImpGraphicList (manager (fst (step ticks_per_second swapOut op s)))).
Proof.
  intros Hs. destruct op as [p g|p|p g n|p g n|p g n]; cbn [step].
  - destruct (registerGraphic_result ticks_per_second swapOut p (setGraphic p g s))
      as (Hreg & _).
    rewrite Hreg. apply sorted_vectorFacts.insert_sorted.
    unfold makeSpace. destruct (_ <? _); [|exact Hs].
    now apply reduceGraphicMemory_sorted.
  - now apply sorted_vectorFacts.erase_sorted.
  - unfold swappedIn. destruct (_ =? _)%N; exact Hs.
  - unfold swappedOut. destruct (_ =? _)%N; exact Hs.
  - exact Hs.
Qed.

Lemma step_accounted op s :
  sorted_vector.sorted (m_pImpGraphicList (manager s)) ->
  accounted s ->
  reportsExactly s op ->
  accounted (fst (step ticks_per_second swapOut op s)).
Proof.
  intros Hs Hacc Hrep. destruct op as [p g|p|p g n|p g n|p g n]; cbn [step].
  - apply registerGraphic_result.
  - now apply unregisterGraphic_accounted.
  - now apply swappedIn_accounted.
  - now apply swappedOut_accounted.
  - now apply changeExisting_accounted.
Qed.

(** C1 (amended).  Along every finite run of registrations,
    unregistrations and swap notifications in which each step reports
    exactly what it changes, [mnUsedSize] is, after each step, the sum
    recalculated over the members that are not swapped out, and the
    literal sum of their sizes while that fits 64 bits.  A registration
    restores this whatever came before it; an unregistration or a
    notification only moves the counter by the size it is given. *)
Theorem accounted_along_exact_runs ops s :
  sorted_vector.sorted (m_pImpGraphicList (manager s)) ->
  accounted s ->
  allReportExactly ticks_per_second swapOut ops s ->
  accounted (fst (run ticks_per_second swapOut ops s))
  /\ (Int64.in_range (literalSum (fst (run ticks_per_second swapOut ops s))) ->
      mnUsedSize (manager (fst (run ticks_per_second swapOut ops s)))
      = literalSum (fst (run ticks_per_second swapOut ops s)))
  /\ (forall p g,
        accounted (fst (run ticks_per_second swapOut (ops ++ [OpRegister p g]) s))).
Proof.
  intros Hs Hacc Hall.
  assert (Hfinal : accounted (fst (run ticks_per_second swapOut ops s))).
  { revert s Hs Hacc Hall. induction ops as [|op ops IH]; intros s Hs Hacc Hall.
    - exact Hacc.
    - destruct Hall as [Hrep Hall]. cbn [run].
      pose proof (step_sorted op s Hs) as Hs1.
      pose proof (step_accounted op s Hs Hacc Hrep) as Hacc1.
      destruct (step ticks_per_second swapOut op s) as [s1 t1]. cbn [fst] in *.
      specialize (IH s1 Hs1 Hacc1 Hall).
      destruct (run ticks_per_second swapOut ops s1) as [s2 t2]. exact IH. }
  split; [exact Hfinal|]. split; [now apply accounted_literalSum|].
  intros p g. clear.
  revert s. induction ops as [|op ops IH]; intros s.
  - cbn [app run step].
    pose proof (registerGraphic_result ticks_per_second swapOut p (setGraphic p g s))
      as (_ & _ & Hu & _).
    destruct (registerGraphic ticks_per_second swapOut p (setGraphic p g s)). exact Hu.
  - rewrite <- app_comm_cons. cbn [run].
    destruct (step ticks_per_second swapOut op s) as [s1 t1].
    specialize (IH s1).
    destruct (run ticks_per_second swapOut (ops ++ [OpRegister p g]) s1). exact IH.
Qed.

End RunClaims.

(** ** Scenarios, evaluated *)

Module ScenarioFacts.

Import Scenario.

Lemma ImpGraphic_swapOut_keeps_sorted p s :
  sorted_vector.sorted (m_pImpGraphicList (manager s)) ->
  sorted_vector.sorted (m_pImpGraphicList (manager (ImpGraphic_swapOut p s))).
Proof.
  intros Hs. unfold ImpGraphic_swapOut.
  destruct (isSwappedOut (graphics s p)); [exact Hs|].
  unfold swappedOut. destruct (_ =? _)%N; exact Hs.
Qed.

(** The default limit has the target 210,000,000; the targets of other
    limits need not be seven tenths of them. *)
Lemma sweepTarget_values :
  sweepTarget 300000000 = 210000000
  /\ sweepTarget 1000000 = 700000
  /\ sweepTarget 200001 = 140000
  /\ sweepTarget 90 = 62.
Proof. repeat split; vm_compute; reflexivity. Qed.

(** A registration made from inside [swapOut] finds the reduction in
    progress and does not sweep again: the timer's sweep over the three
    objects calls [swapOut] once on each, the temporary object is in the
    registry afterwards, and the counter is the recalculated sum. *)
Lemma reentrant_registration_does_not_sweep :
  let r := SwapOutTimerHandler nanoseconds reentrant_swapOut afterThree in
  swapOutCalls (snd r) = [1%N; 2%N; 3%N]
  /\ filter isSnapshot (snd r) = [EvSnapshot [1%N; 2%N; 3%N]]
  /\ m_pImpGraphicList (manager (fst r)) = [1%N; 2%N; 3%N; 9%N]
  /\ mnUsedSize (manager (fst r)) = 200000
  /\ calculatedSize (fst r) = 200000
  /\ mbReducingGraphicMemory (manager (fst r)) = false.
Proof. repeat split; vm_compute; reflexivity. Qed.

(** C1, as stated, fails: an object is registered, swaps out and reports
    the 500 bytes it gives up, and is unregistered while it is swapped out
    and still reports 500 bytes.  No callback is in flight at the end; the
    registry is empty, the sum is 0, and [mnUsedSize] is -500.  Likewise a
    swap-in reported for an object that was swapped in all along leaves
    the counter at 1,000 with a sum of 500. *)
Lemma drift_after_unregister_of_swapped_out :
  let s := fst (run nanoseconds ImpGraphic_swapOut registerThenSwapOutThenUnregister
                    (fresh defaults 0)) in
  let s' := fst (run nanoseconds ImpGraphic_swapOut swapInReportedTwice
                     (fresh defaults 0)) in
  m_pImpGraphicList (manager s) = []
  /\ literalSum s = 0
  /\ calculatedSize s = 0
  /\ mnUsedSize (manager s) = -500
  /\ ~ accounted s
  /\ literalSum s' = 500
  /\ mnUsedSize (manager s') = 1000
  /\ ~ accounted s'.
Proof.
  repeat split; try (vm_compute; reflexivity);
    unfold accounted; vm_compute; discriminate.
Qed.

(** C3, as stated, fails: with a limit of 1,000,000 bytes and swapping
    enabled, three objects of 500,000 bytes, each idle for a minute, are
    registered.  Their sizes sum to 1,500,000, above the limit, yet no
    registration takes a snapshot or calls [swapOut]: at entry of the third
    call the counter is 1,000,000, which does not exceed the limit. *)
Lemma no_sweep_when_sizes_first_exceed_limit :
  let r := run nanoseconds ImpGraphic_swapOut threeHalfMegabytes
               (fresh (limited 1000000) (60 * nanoseconds)) in
  mbSwapEnabled (manager (fst r)) = true
  /\ mnMemoryLimit (manager (fst r)) = 1000000
  /\ literalSum (fst r) = 1500000
  /\ mnUsedSize (manager (fst r)) = 1500000
  /\ existsb isSnapshot (snd r) = false
  /\ swapOutCalls (snd r) = [].
Proof. repeat split; vm_compute; reflexivity. Qed.

(** C4, as stated, fails: with a limit of 200,001 bytes the sweep swaps
    out the object 1 and reaches the object 2 with 140,000 bytes used.
    That is below 0.7 x 200,001 = 140,000.7, but not below the target
    140,000 of the code, and the object 2 is swapped out as well. *)
Lemma sweep_continues_below_seven_tenths :
  let s1 := fst (loopOver nanoseconds ImpGraphic_swapOut [1%N] (guarded boundary)) in
  m_pImpGraphicList (manager boundary) = [1%N; 2%N]
  /\ mnUsedSize (manager s1) = 140000
  /\ mnMemoryLimit (manager s1) = 200001
  /\ 10 * mnUsedSize (manager s1) < 7 * mnMemoryLimit (manager s1)
  /\ swapOutCalls (snd (loopGraphicsAndSwapOut nanoseconds ImpGraphic_swapOut
                          (guarded boundary))) = [1%N; 2%N]
  /\ swapOutCalls (snd (reduceGraphicMemory nanoseconds ImpGraphic_swapOut boundary))
     = [1%N; 2%N].
Proof. repeat split; vm_compute; reflexivity. Qed.


(** C8, as stated, fails: the memory limit is read as 5, then the read of
    the idle time throws.  The manager keeps the limit 5, not the default
    300,000,000; the idle time and the switch keep their defaults. *)
Lemma second_read_failure_keeps_first_value :
  GraphicAllowedIdleTime_get secondReadFails = None
  /\ mnMemoryLimit (Manager_ctor secondReadFails) = 5
  /\ mnMemoryLimit (Manager_ctor secondReadFails) <> 300000000
  /\ mnAllowedIdleTime (Manager_ctor secondReadFails) = 10
  /\ mbSwapEnabled (Manager_ctor secondReadFails) = true.
Proof. repeat split; try reflexivity. vm_compute. discriminate. Qed.

(** *** The theorems at the scenarios *)

Lemma exactRun_reports_exactly :
  allReportExactly nanoseconds ImpGraphic_swapOut exactRun (fresh defaults 0).
Proof.
  vm_compute. repeat split; try discriminate; auto.
Qed.

Lemma accounted_along_exact_runs_witness :
  accounted (fst (run nanoseconds ImpGraphic_swapOut exactRun (fresh defaults 0)))
  /\ mnUsedSize (manager (fst (run nanoseconds ImpGraphic_swapOut exactRun
                                   (fresh defaults 0)))) = 300.
Proof.
  pose proof (accounted_along_exact_runs nanoseconds ImpGraphic_swapOut
                ImpGraphic_swapOut_keeps_sorted exactRun (fresh defaults 0)
                (SSorted_nil N.lt) eq_refl exactRun_reports_exactly) as H.
  split; [exact (proj1 H)|reflexivity].
Defined.


Lemma registerGraphic_sweeps_first_witness :
  existsb isSnapshot (snd (registerGraphic nanoseconds ImpGraphic_swapOut 4%N beforeFourth))
  = true.
Proof.
  apply (proj1 (registerGraphic_sweeps_first nanoseconds ImpGraphic_swapOut 4%N
                  beforeFourth)).
  repeat split; vm_compute; reflexivity.
Defined.

Lemma sweep_halts_below_target_witness :
  loopGraphicsAndSwapOut nanoseconds ImpGraphic_swapOut (guarded afterThree)
  = (fst (loopOver nanoseconds ImpGraphic_swapOut [1%N; 2%N] (guarded afterThree)),
     EvSnapshot ([1%N; 2%N] ++ [3%N])
       :: snd (loopOver nanoseconds ImpGraphic_swapOut [1%N; 2%N] (guarded afterThree))).
Proof.
  apply (sweep_halts_below_target nanoseconds ImpGraphic_swapOut
           [1%N; 2%N] [3%N] (guarded afterThree)).
  - reflexivity.
  - unfold belowTarget. vm_compute. reflexivity.
Defined.

Lemma afterThree_first_call :
  In (EvSwapOut 1%N (guarded afterThree))
     (snd (loopGraphicsAndSwapOut nanoseconds ImpGraphic_swapOut (guarded afterThree))).
Proof.
  rewrite loopGraphicsAndSwapOut_trace.
  assert (Hreg : m_pImpGraphicList (manager (guarded afterThree)) = [1%N; 2%N; 3%N])
    by (vm_compute; reflexivity).
  rewrite Hreg, loopOver_cons.
  assert (Hthr : (mnUsedSize (manager (guarded afterThree))
                  <? sweepTarget (mnMemoryLimit (manager (guarded afterThree)))) = false)
    by (vm_compute; reflexivity).
  rewrite Hthr, loopBody_evictable.
  assert (He : evictable nanoseconds (guarded afterThree) 1%N = true)
    by (vm_compute; reflexivity).
  rewrite He. cbn [fst snd swapOutBlock app].
  right. right. left. reflexivity.
Qed.

Lemma sweep_swaps_only_eligible_witness :
  In 1%N (m_pImpGraphicList (manager (guarded afterThree)))
  /\ isSwappedOut (graphics (guarded afterThree) 1%N) = false
  /\ 100000 < getGraphicSizeBytes (guarded afterThree) 1%N
  /\ mpContext (graphics (guarded afterThree) 1%N) = false.
Proof.
  apply (sweep_swaps_only_eligible nanoseconds ImpGraphic_swapOut
           (guarded afterThree) 1%N (guarded afterThree)).
  exact afterThree_first_call.
Defined.


Lemma reduceGraphicMemory_no_op_when_suppressed_witness :
  reduceGraphicMemory nanoseconds ImpGraphic_swapOut (guarded afterThree)
  = (guarded afterThree, [])
  /\ mbReducingGraphicMemory
       (manager (fst (reduceGraphicMemory nanoseconds ImpGraphic_swapOut afterThree)))
     = false.
Proof.
  split.
  - apply (proj1 (reduceGraphicMemory_no_op_when_suppressed nanoseconds ImpGraphic_swapOut
                    (guarded afterThree))).
    right. right. reflexivity.
  - apply (proj2 (reduceGraphicMemory_no_op_when_suppressed nanoseconds ImpGraphic_swapOut
                    afterThree)).
    + reflexivity.
    + vm_compute. discriminate.
    + reflexivity.
Defined.

Lemma swapOut_called_with_mutex_released_witness :
  neverHeldAcrossSwapOut false
    (snd (registerGraphic nanoseconds ImpGraphic_swapOut 4%N beforeFourth)) = true.
Proof.
  exact (proj1 (proj2 (proj2 (swapOut_called_with_mutex_released nanoseconds
                                ImpGraphic_swapOut beforeFourth))) 4%N).
Defined.

Lemma configuration_failure_keeps_later_defaults_witness :
  mnAllowedIdleTime (Manager_ctor secondReadFails) = 10
  /\ mbSwapEnabled (Manager_ctor secondReadFails) = true.
Proof.
  apply (proj1 (proj2 (configuration_failure_keeps_later_defaults secondReadFails))).
  reflexivity.
Defined.

Lemma unregisterGraphic_subtracts_reported_size_witness :
  let s' := fst (unregisterGraphic 1%N swappedOutSizedRegistered) in
  calculatedSize s' = calculatedSize swappedOutSizedRegistered
  /\ mnUsedSize (manager s') = Int64.sub (calculatedSize s') 500
  /\ (Int64.min_signed <= calculatedSize s' - 500 ->
      mnUsedSize (manager s') = calculatedSize s' - 500
      /\ mnUsedSize (manager s') <> calculatedSize s').
Proof.
  apply (proj1 (proj2 (proj2 (proj2 (proj2
           (unregisterGraphic_subtracts_reported_size nanoseconds ImpGraphic_swapOut
              1%N swappedOutSizedRegistered))))) 500).
  - vm_compute. reflexivity.
  - reflexivity.
  - reflexivity.
  - reflexivity.
  - reflexivity.
Defined.

End ScenarioFacts.

(** * Further properties of the manager *)

(** ** Subsequences *)

Module SubsequenceFacts.

Lemma Subsequence_nil_l v : Subsequence [] v.
Proof. induction v; constructor; assumption. Qed.

Lemma Subsequence_In calls v p : Subsequence calls v -> In p calls -> In p v.
Proof.
  induction 1 as [|q calls v _ IH|q calls v _ IH]; simpl; intuition.
Qed.

Lemma Subsequence_length calls v :
  Subsequence calls v -> (length calls <= length v)%nat.
Proof. induction 1; simpl; lia. Qed.

Lemma Subsequence_NoDup calls v : Subsequence calls v -> NoDup v -> NoDup calls.
Proof.
  induction 1 as [|q calls v Hs IH|q calls v Hs IH]; intros Hnd.
  - constructor.
  - inversion Hnd; auto.
  - inversion Hnd as [|? ? Hnin Hnd']; subst. constructor; [|auto].
    intros Hin. apply Hnin. eapply Subsequence_In; eauto.
Qed.

Lemma sorted_NoDup v : sorted_vector.sorted v -> NoDup v.
Proof.
  unfold sorted_vector.sorted. induction 1 as [|y v Hs IH Hall]; constructor; [|assumption].
  apply sorted_vectorFacts.sorted_head_notin. now constructor.
Qed.

End SubsequenceFacts.

(** ** More on the sorted vector *)

Module sorted_vectorMore.

Import sorted_vector sorted_vectorFacts.

Lemma insert_member x v : sorted v -> In x v -> insert x v = v.
Proof.
  unfold sorted. induction 1 as [|y v Hs IH Hall]; simpl; [tauto|].
  intros Hin.
  destruct (N.ltb_spec x y) as [Hlt|Hge].
  - destruct Hin as [->|Hin]; [lia|].
    rewrite Forall_forall in Hall. specialize (Hall _ Hin). simpl in Hall. lia.
  - destruct (N.eqb_spec x y) as [->|Hne]; [reflexivity|].
    destruct Hin as [->|Hin]; [congruence|]. f_equal. auto.
Qed.

Lemma erase_insert x v : ~ In x v -> erase x (insert x v) = v.
Proof.
  induction v as [|y v IH]; simpl; intros Hnin.
  - rewrite N.ltb_irrefl, N.eqb_refl. reflexivity.
  - destruct (N.ltb_spec x y) as [Hlt|Hge].
    + simpl. rewrite N.ltb_irrefl, N.eqb_refl. reflexivity.
    + destruct (N.eqb_spec x y) as [->|Hne]; [tauto|].
      simpl. destruct (N.ltb_spec y x); [|lia].
      f_equal. apply IH. tauto.
Qed.

Lemma sumOver_insert_new c x v : ~ In x v -> sumOver c (insert x v) = c x + sumOver c v.
Proof.
  induction v as [|y v IH]; simpl; intros Hnin; [reflexivity|].
  destruct (N.ltb_spec x y); [reflexivity|].
  destruct (N.eqb_spec x y) as [->|Hne]; [tauto|].
  simpl. rewrite IH by tauto. ring.
Qed.

End sorted_vectorMore.

(** ** The sweep, seen from its calls *)

Section SweepExtras.

Variable ticks_per_second : Z.
Variable swapOut : ImpGraphicPtr -> State -> State.

Lemma loopOver_applyCalls v s :
  fst (loopOver ticks_per_second swapOut v s)
  = applyCalls swapOut (swapOutCalls (snd (loopOver ticks_per_second swapOut v s))) s.
Proof.
  revert s. induction v as [|p v IH]; intros s; [reflexivity|].
  rewrite loopOver_cons. destruct (_ <? _); [reflexivity|].
  rewrite loopBody_evictable.
  destruct (evictable ticks_per_second s p); cbn [fst snd].
  - rewrite swapOutCalls_app. simpl. apply IH.
  - simpl. apply IH.
Qed.

Lemma loopOver_subsequence v s :
  Subsequence (swapOutCalls (snd (loopOver ticks_per_second swapOut v s))) v.
Proof.
  revert s. induction v as [|p v IH]; intros s; [constructor|].
  rewrite loopOver_cons.
  destruct (_ <? _); [apply SubsequenceFacts.Subsequence_nil_l|].
  rewrite loopBody_evictable.
  destruct (evictable ticks_per_second s p); cbn [fst snd].
  - rewrite swapOutCalls_app. simpl. apply Subsequence_keep, IH.
  - simpl. apply Subsequence_skip, IH.
Qed.

Lemma loopOver_none_evictable v s :
  (forall p, In p v -> evictable ticks_per_second s p = false) ->
  loopOver ticks_per_second swapOut v s = (s, []).
Proof.
  induction v as [|p v IH]; intros Hnone; [reflexivity|].
  rewrite loopOver_cons. destruct (_ <? _); [reflexivity|].
  rewrite loopBody_evictable, (Hnone p) by now left. cbn [fst snd].
  rewrite IH; [reflexivity|]. intros q Hq. apply Hnone. now right.
Qed.

(** What a run of [reduceGraphicMemory] that is not suppressed leaves
    behind, in terms of the state its sweep ends in. *)
Lemma reduceGraphicMemory_result s :
  suppressed s = false ->
  let s2 := fst (loopGraphicsAndSwapOut ticks_per_second swapOut (guarded s)) in
  let r := fst (reduceGraphicMemory ticks_per_second swapOut s) in
  graphics r = graphics s2
  /\ clock r = clock s2
  /\ m_pImpGraphicList (manager r) = m_pImpGraphicList (manager s2)
  /\ mnUsedSize (manager r) = calculatedSize s2
  /\ mnMemoryLimit (manager r) = mnMemoryLimit (manager s2)
  /\ mnAllowedIdleTime (manager r) = mnAllowedIdleTime (manager s2)
  /\ mbSwapEnabled (manager r) = mbSwapEnabled (manager s2)
  /\ maSwapOutTimer (manager r) = maSwapOutTimer (manager s2)
  /\ mbReducingGraphicMemory (manager r) = false.
Proof.
  unfold suppressed, reduceGraphicMemory.
  destruct (mbSwapEnabled (manager s)); simpl; [|discriminate].
  destruct (_ <? _); simpl; [discriminate|].
  destruct (mbReducingGraphicMemory (manager s)); [discriminate|]. intros _.
  fold (guarded s).
  destruct (loopGraphicsAndSwapOut ticks_per_second swapOut (guarded s)) as [s2 t].
  cbn [fst].
  destruct (Z.eqb_spec (calculatedSize s2) (mnUsedSize (manager s2))) as [He|Hne];
    cbn [negb]; repeat split; try reflexivity.
  symmetry. exact He.
Qed.

Lemma loopGraphicsAndSwapOut_applyCalls s :
  fst (loopGraphicsAndSwapOut ticks_per_second swapOut s)
  = applyCalls swapOut
      (swapOutCalls (snd (loopGraphicsAndSwapOut ticks_per_second swapOut s))) s.
Proof.
  rewrite loopGraphicsAndSwapOut_state, loopGraphicsAndSwapOut_trace. simpl.
  apply loopOver_applyCalls.
Qed.

(** X1.  The sweep changes the state through its calls of [swapOut] and
    in no other way: the state it ends in is the state at entry with
    [swapOut] applied to the objects it called, in the order of the calls.
    It never writes to the counter, the registry or an object itself. *)
Theorem sweep_changes_state_only_through_swapOut s :
  fst (loopGraphicsAndSwapOut ticks_per_second swapOut s)
  = applyCalls swapOut
      (swapOutCalls (snd (loopGraphicsAndSwapOut ticks_per_second swapOut s))) s.
Proof. apply loopGraphicsAndSwapOut_applyCalls. Qed.

(** X2.  In one sweep [swapOut] is called on the objects of the registry
    as it was at entry, in the order of the registry, and on none of them
    twice: the calls are a subsequence of the snapshot, so there are at
    most as many calls as objects registered at entry, whatever the calls
    themselves register, and no object is called twice when the registry
    is sorted. *)
Theorem sweep_calls_each_snapshotted_object_at_most_once s :
  Subsequence (swapOutCalls (snd (loopGraphicsAndSwapOut ticks_per_second swapOut s)))
              (m_pImpGraphicList (manager s))
  /\ (length (swapOutCalls (snd (loopGraphicsAndSwapOut ticks_per_second swapOut s)))
      <= length (m_pImpGraphicList (manager s)))%nat
  /\ (sorted_vector.sorted (m_pImpGraphicList (manager s)) ->
      NoDup (swapOutCalls (snd (loopGraphicsAndSwapOut ticks_per_second swapOut s)))).
Proof.
  assert (Hsub : Subsequence
                   (swapOutCalls (snd (loopGraphicsAndSwapOut ticks_per_second swapOut s)))
                   (m_pImpGraphicList (manager s))).
  { rewrite loopGraphicsAndSwapOut_trace. simpl. apply loopOver_subsequence. }
  split; [exact Hsub|]. split.
  - now apply SubsequenceFacts.Subsequence_length.
  - intros Hs. eapply SubsequenceFacts.Subsequence_NoDup; [exact Hsub|].
    now apply SubsequenceFacts.sorted_NoDup.
Qed.

(** X3.  When no registered object passes the tests of the sweep (each is
    swapped out, or of at most 100,000 bytes, or has a reader context, or
    has not been idle long enough), a run of [reduceGraphicMemory] that is
    not suppressed calls no [swapOut] and leaves the registry, the objects
    and the clock as they were; it only sets the counter to the
    recalculated sum and clears its flag.  The counter may stay above the
    limit. *)
Theorem reduceGraphicMemory_without_candidates s :
  suppressed s = false ->
  (forall p, In p (m_pImpGraphicList (manager s)) ->
             evictable ticks_per_second s p = false) ->
  let r := reduceGraphicMemory ticks_per_second swapOut s in
  snd r = [EvSnapshot (m_pImpGraphicList (manager s))]
  /\ m_pImpGraphicList (manager (fst r)) = m_pImpGraphicList (manager s)
  /\ graphics (fst r) = graphics s
  /\ clock (fst r) = clock s
  /\ mnUsedSize (manager (fst r)) = calculatedSize s
  /\ mbReducingGraphicMemory (manager (fst r)) = false.
Proof.
  intros Hs Hnone r. subst r.
  assert (Hloop : loopGraphicsAndSwapOut ticks_per_second swapOut (guarded s)
                  = (guarded s, [EvSnapshot (m_pImpGraphicList (manager s))])).
  { unfold loopGraphicsAndSwapOut.
    rewrite (loopOver_none_evictable (m_pImpGraphicList (manager (guarded s))) (guarded s));
      [reflexivity|].
    intros p Hp. exact (Hnone p Hp). }
  destruct (reduceGraphicMemory_result s Hs)
    as (Hg & Hc & Hr & Hu & _ & _ & _ & _ & Hf).
  rewrite Hloop in Hg, Hc, Hr, Hu. cbn [fst] in Hg, Hc, Hr, Hu.
  rewrite (proj1 (reduceGraphicMemory_runs ticks_per_second swapOut s Hs)), Hloop.
  repeat split; assumption.
Qed.


End SweepExtras.

(** ** Registration without a sweep *)

Lemma literalSum_congr s s' v :
  graphics s' = graphics s ->
  m_pImpGraphicList (manager s') = v ->
  literalSum s' = sumOver (counted s) v.
Proof.
  intros Hg Hv. unfold literalSum. rewrite Hv.
  apply SumFacts.sumOver_ext. intros q _.
  unfold counted, getGraphicSizeBytes. now rewrite Hg.
Qed.

Lemma accounted_in_range s : accounted s -> Int64.in_range (mnUsedSize (manager s)).
Proof. intros ->. apply calculatedSize_in_range. Qed.

Lemma wrap_eq_self u n :
  Int64.in_range u -> Int64.in_range n -> Int64.wrap (u - n) = u -> n = 0.
Proof.
  intros Hu Hn H.
  rewrite <- (Int64Facts.wrap_in_range u Hu) in H at 2.
  unfold Int64.wrap in H.
  assert (Hm : (u - n + 2 ^ 63) mod Int64.modulus = (u + 2 ^ 63) mod Int64.modulus) by lia.
  assert (Hd : ((u + 2 ^ 63) - (u - n + 2 ^ 63)) mod Int64.modulus = 0).
  { rewrite Zminus_mod, Hm, Z.sub_diag. reflexivity. }
  replace ((u + 2 ^ 63) - (u - n + 2 ^ 63)) with n in Hd by ring.
  apply Z.mod_divide in Hd; [|unfold Int64.modulus; lia].
  destruct Hd as [k Hk].
  unfold Int64.in_range, Int64.min_signed, Int64.max_signed, Int64.modulus in *. lia.
Qed.

Section RegisterExtras.

Variable ticks_per_second : Z.
Variable swapOut : ImpGraphicPtr -> State -> State.

Lemma makeSpace_suppressed s :
  suppressed s = true -> makeSpace ticks_per_second swapOut s = (s, []).
Proof. intros Hs. rewrite makeSpace_cases, Hs, andb_false_r. reflexivity. Qed.

Lemma makeSpace_under_limit s :
  mnUsedSize (manager s) <= mnMemoryLimit (manager s) ->
  makeSpace ticks_per_second swapOut s = (s, []).
Proof.
  intros Hle. unfold makeSpace.
  destruct (Z.ltb_spec (mnMemoryLimit (manager s)) (mnUsedSize (manager s)));
    [lia|reflexivity].
Qed.

(** [registerGraphic] when its first statement does nothing. *)
Lemma registerGraphic_no_sweep p s :
  makeSpace ticks_per_second swapOut s = (s, []) ->
  let r := registerGraphic ticks_per_second swapOut p s in
  m_pImpGraphicList (manager (fst r))
  = sorted_vector.insert p (m_pImpGraphicList (manager s))
  /\ graphics (fst r) = graphics s
  /\ clock (fst r) = clock s
  /\ mnUsedSize (manager (fst r)) = calculatedSize (fst r)
  /\ mbReducingGraphicMemory (manager (fst r)) = mbReducingGraphicMemory (manager s)
  /\ mbSwapEnabled (manager (fst r)) = mbSwapEnabled (manager s)
  /\ mnMemoryLimit (manager (fst r)) = mnMemoryLimit (manager s)
  /\ snd r
     = EvLock
         :: (if calculatedSize (fst r)
                =? Int64.add (mnUsedSize (manager s)) (getGraphicSizeBytes s p)
             then []
             else [EvInfo (Int64.add (mnUsedSize (manager s)) (getGraphicSizeBytes s p))
                          (calculatedSize (fst r))])
         ++ [EvUnlock].
Proof.
  intros Hm r. subst r.
  destruct (registerGraphic_result ticks_per_second swapOut p s) as (Hr & Hg & Hu & Ht).
  unfold incremental in Ht. rewrite Hm in Hr, Hg, Ht. cbn [fst snd app] in Hr, Hg, Ht.
  split; [exact Hr|]. split; [exact Hg|].
  split; [|split; [exact Hu|]].
  - unfold registerGraphic. rewrite Hm. destruct (negb _); reflexivity.
  - split; [|split; [|split; [|exact Ht]]];
      unfold registerGraphic; rewrite Hm; destruct (negb _); reflexivity.
Qed.

Lemma registerGraphic_no_sweep_sum p s :
  makeSpace ticks_per_second swapOut s = (s, []) ->
  literalSum (fst (registerGraphic ticks_per_second swapOut p s))
  = sumOver (counted s) (sorted_vector.insert p (m_pImpGraphicList (manager s))).
Proof.
  intros Hm. destruct (registerGraphic_no_sweep p s Hm) as (Hr & Hg & _).
  now apply literalSum_congr.
Qed.

Lemma registerGraphic_new_under_limit p s :
  makeSpace ticks_per_second swapOut s = (s, []) ->
  accounted s ->
  ~ In p (m_pImpGraphicList (manager s)) ->
  mnUsedSize (manager (fst (registerGraphic ticks_per_second swapOut p s)))
  = Int64.add (mnUsedSize (manager s)) (counted s p).
Proof.
  intros Hm Hacc Hnin.
  destruct (registerGraphic_no_sweep p s Hm) as (_ & _ & _ & Hu & _).
  rewrite Hu, SumFacts.calculatedSize_literalSum, (registerGraphic_no_sweep_sum p s Hm).
  rewrite sorted_vectorMore.sumOver_insert_new by assumption.
  fold (literalSum s). unfold Int64.add.
  rewrite Hacc, SumFacts.calculatedSize_literalSum, Int64Facts.wrap_add_l.
  f_equal. ring.
Qed.

(** X5.  Registering with the counter at or below the limit calls no
    [swapOut] and takes no snapshot.  It adds the object to the registry
    and keeps every member, and leaves the objects and the clock alone.
    When the counter was the sum and the object is new, the counter grows
    by what the object counts for: its size when it is swapped in, nothing
    when it is swapped out; and no mismatch is logged for an object that
    is swapped in. *)
Theorem registerGraphic_under_limit p s :
  mnUsedSize (manager s) <= mnMemoryLimit (manager s) ->
  let r := registerGraphic ticks_per_second swapOut p s in
  swapOutCalls (snd r) = []
  /\ existsb isSnapshot (snd r) = false
  /\ m_pImpGraphicList (manager (fst r))
     = sorted_vector.insert p (m_pImpGraphicList (manager s))
  /\ (forall q, In q (m_pImpGraphicList (manager s)) ->
                In q (m_pImpGraphicList (manager (fst r))))
  /\ graphics (fst r) = graphics s
  /\ clock (fst r) = clock s
  /\ (accounted s ->
      ~ In p (m_pImpGraphicList (manager s)) ->
      mnUsedSize (manager (fst r)) = Int64.add (mnUsedSize (manager s)) (counted s p)
      /\ (isSwappedOut (graphics s p) = false -> existsb isInfo (snd r) = false)).
Proof.
  intros Hle r. subst r.
  pose proof (makeSpace_under_limit s Hle) as Hm.
  destruct (registerGraphic_no_sweep p s Hm) as (Hr & Hg & Hc & Hu & _ & _ & _ & Ht).
  split; [rewrite Ht; simpl; destruct (_ =? _); reflexivity|].
  split; [rewrite Ht; simpl; destruct (_ =? _); reflexivity|].
  split; [exact Hr|].
  split; [intros q Hq; rewrite Hr; apply sorted_vectorFacts.In_insert_iff; now right|].
  split; [exact Hg|]. split; [exact Hc|].
  intros Hacc Hnin.
  pose proof (registerGraphic_new_under_limit p s Hm Hacc Hnin) as Hnew.
  split; [exact Hnew|].
  intros Hin. rewrite Ht.
  rewrite <- Hu, Hnew. unfold counted. rewrite Hin, Z.eqb_refl. reflexivity.
Qed.

(** X6.  Registering an object that is already registered, with the
    counter at or below the limit and equal to the sum, changes neither
    the registry nor the counter nor any object: an object is never
    counted twice. *)
Theorem registerGraphic_twice_counts_once p s :
  mnUsedSize (manager s) <= mnMemoryLimit (manager s) ->
  sorted_vector.sorted (m_pImpGraphicList (manager s)) ->
  In p (m_pImpGraphicList (manager s)) ->
  accounted s ->
  let r := registerGraphic ticks_per_second swapOut p s in
  m_pImpGraphicList (manager (fst r)) = m_pImpGraphicList (manager s)
  /\ mnUsedSize (manager (fst r)) = mnUsedSize (manager s)
  /\ graphics (fst r) = graphics s.
Proof.
  intros Hle Hs Hin Hacc r. subst r.
  pose proof (makeSpace_under_limit s Hle) as Hm.
  destruct (registerGraphic_no_sweep p s Hm) as (Hr & Hg & _ & Hu & _).
  rewrite sorted_vectorMore.insert_member in Hr by assumption.
  split; [exact Hr|]. split; [|exact Hg].
  rewrite Hu, Hacc, !SumFacts.calculatedSize_literalSum.
  f_equal. now apply literalSum_congr.
Qed.

(** X7.  Registering a new object that is swapped in, with the counter at
    or below the limit and equal to the sum, and unregistering it again
    gives back the registry and the counter as they were; the objects are
    untouched. *)
Theorem register_then_unregister_restores p s :
  mnUsedSize (manager s) <= mnMemoryLimit (manager s) ->
  accounted s ->
  ~ In p (m_pImpGraphicList (manager s)) ->
  isSwappedOut (graphics s p) = false ->
  let s1 := fst (registerGraphic ticks_per_second swapOut p s) in
  let s2 := fst (unregisterGraphic p s1) in
  m_pImpGraphicList (manager s2) = m_pImpGraphicList (manager s)
  /\ mnUsedSize (manager s2) = mnUsedSize (manager s)
  /\ graphics s2 = graphics s
  /\ accounted s2.
Proof.
  intros Hle Hacc Hnin Hin s1 s2.
  pose proof (makeSpace_under_limit s Hle) as Hm.
  destruct (registerGraphic_no_sweep p s Hm) as (Hr & Hg & _).
  pose proof (registerGraphic_new_under_limit p s Hm Hacc Hnin) as Hnew.
  fold s1 in Hr, Hg, Hnew.
  assert (Hreg : m_pImpGraphicList (manager s2) = m_pImpGraphicList (manager s)).
  { change (m_pImpGraphicList (manager s2))
      with (sorted_vector.erase p (m_pImpGraphicList (manager s1))).
    rewrite Hr. now apply sorted_vectorMore.erase_insert. }
  assert (Hgr : graphics s2 = graphics s) by exact Hg.
  assert (Hused : mnUsedSize (manager s2) = mnUsedSize (manager s)).
  { change (mnUsedSize (manager s2))
      with (Int64.sub (mnUsedSize (manager s1)) (getGraphicSizeBytes s1 p)).
    rewrite Hnew. unfold getGraphicSizeBytes at 1. rewrite Hg.
    fold (getGraphicSizeBytes s p).
    unfold counted. rewrite Hin. unfold Int64.sub, Int64.add.
    unfold Z.sub. rewrite Int64Facts.wrap_add_l.
    replace (mnUsedSize (manager s) + getGraphicSizeBytes s p + - getGraphicSizeBytes s p)
      with (mnUsedSize (manager s)) by ring.
    apply Int64Facts.wrap_in_range. now apply accounted_in_range. }
  repeat split; try assumption.
  unfold accounted. rewrite Hused, Hacc, !SumFacts.calculatedSize_literalSum.
  f_equal. symmetry. now apply literalSum_congr.
Qed.

(** X8.  A registration made while a reduction is in progress, as from
    inside a [swapOut] call of the sweep, never starts a sweep of its own:
    it takes no snapshot and calls no [swapOut], and its outcome does not
    depend on what [swapOut] would do.  The object is registered and the
    counter recalculated all the same. *)
Theorem registerGraphic_during_reduction_does_not_sweep p s :
  mbReducingGraphicMemory (manager s) = true ->
  let r := registerGraphic ticks_per_second swapOut p s in
  swapOutCalls (snd r) = []
  /\ existsb isSnapshot (snd r) = false
  /\ In p (m_pImpGraphicList (manager (fst r)))
  /\ accounted (fst r)
  /\ mbReducingGraphicMemory (manager (fst r)) = true
  /\ (forall tps' swapOut', registerGraphic tps' swapOut' p s = r).
Proof.
  intros Hg r. subst r.
  assert (Hsup : suppressed s = true).
  { unfold suppressed. rewrite Hg. apply orb_true_r. }
  pose proof (makeSpace_suppressed s Hsup) as Hm.
  destruct (registerGraphic_no_sweep p s Hm) as (Hr & _ & _ & Hu & Hf & _ & _ & Ht).
  split; [rewrite Ht; simpl; destruct (_ =? _); reflexivity|].
  split; [rewrite Ht; simpl; destruct (_ =? _); reflexivity|].
  split; [rewrite Hr; apply sorted_vectorFacts.In_insert|].
  split; [exact Hu|]. split; [now rewrite Hf|].
  intros tps' swapOut'. unfold registerGraphic.
  rewrite Hm. unfold makeSpace.
  destruct (_ <? _); [|reflexivity].
  now rewrite reduceGraphicMemory_suppressed.
Qed.

End RegisterExtras.

(** ** Unregistration and notifications *)

(** X9.  Unregistering an object that is not in the registry leaves the
    registry and the objects as they are, and still takes the size the
    object reports off the counter: when the counter was the sum and that
    size is not zero, it is the sum no longer. *)
Theorem unregisterGraphic_of_unregistered p s :
  sorted_vector.sorted (m_pImpGraphicList (manager s)) ->
  ~ In p (m_pImpGraphicList (manager s)) ->
  let s' := fst (unregisterGraphic p s) in
  m_pImpGraphicList (manager s') = m_pImpGraphicList (manager s)
  /\ graphics s' = graphics s
  /\ mnUsedSize (manager s') = Int64.sub (mnUsedSize (manager s)) (getGraphicSizeBytes s p)
  /\ (accounted s ->
      Int64.in_range (getGraphicSizeBytes s p) ->
      getGraphicSizeBytes s p <> 0 ->
      ~ accounted s').
Proof.
  intros Hs Hnin s'.
  assert (Hreg : m_pImpGraphicList (manager s') = m_pImpGraphicList (manager s)).
  { change (m_pImpGraphicList (manager s'))
      with (sorted_vector.erase p (m_pImpGraphicList (manager s))).
    now apply sorted_vectorFacts.erase_absent. }
  split; [exact Hreg|]. split; [reflexivity|]. split; [reflexivity|].
  intros Hacc Hr Hne Hacc'. apply Hne.
  assert (Hcalc : calculatedSize s' = calculatedSize s).
  { rewrite !SumFacts.calculatedSize_literalSum. f_equal.
    now apply literalSum_congr. }
  unfold accounted in Hacc'. rewrite Hcalc, <- Hacc in Hacc'.
  apply (wrap_eq_self (mnUsedSize (manager s)) _ (accounted_in_range s Hacc) Hr).
  exact Hacc'.
Qed.

(** X10.  [swappedIn] and [swappedOut] with the same size undo each other,
    in either order and for any pointer: the counter, when it is a 64-bit
    value, is back where it was, even when the step in between wraps
    around; the registry and the objects are never touched. *)
Theorem swappedIn_swappedOut_cancel p n s :
  Int64.in_range (mnUsedSize (manager s)) ->
  let inOut := fst (swappedOut p n (fst (swappedIn p n s))) in
  let outIn := fst (swappedIn p n (fst (swappedOut p n s))) in
  mnUsedSize (manager inOut) = mnUsedSize (manager s)
  /\ mnUsedSize (manager outIn) = mnUsedSize (manager s)
  /\ m_pImpGraphicList (manager inOut) = m_pImpGraphicList (manager s)
  /\ m_pImpGraphicList (manager outIn) = m_pImpGraphicList (manager s)
  /\ graphics inOut = graphics s
  /\ graphics outIn = graphics s.
Proof.
  intros Hr inOut outIn. subst inOut outIn.
  unfold swappedIn, swappedOut.
  destruct (p =? nullptr)%N; cbn [fst]; repeat split; try reflexivity.
  - change (Int64.sub (Int64.add (mnUsedSize (manager s)) n) n = mnUsedSize (manager s)).
    unfold Int64.sub, Int64.add, Z.sub. rewrite Int64Facts.wrap_add_l.
    replace (mnUsedSize (manager s) + n + - n) with (mnUsedSize (manager s)) by ring.
    now apply Int64Facts.wrap_in_range.
  - change (Int64.add (Int64.sub (mnUsedSize (manager s)) n) n = mnUsedSize (manager s)).
    unfold Int64.sub, Int64.add. rewrite Int64Facts.wrap_add_l.
    replace (mnUsedSize (manager s) - n + n) with (mnUsedSize (manager s)) by ring.
    now apply Int64Facts.wrap_in_range.
Qed.


(** ** The timer *)

Section TimerExtras.

Variable ticks_per_second : Z.
Variable swapOut : ImpGraphicPtr -> State -> State.

Lemma SwapOutTimerHandler_unfold s :
  SwapOutTimerHandler ticks_per_second swapOut s
  = (set_maSwapOutTimer true
       (fst (reduceGraphicMemory ticks_per_second swapOut (set_maSwapOutTimer false s))),
     EvLock :: snd (reduceGraphicMemory ticks_per_second swapOut
                      (set_maSwapOutTimer false s)) ++ [EvUnlock]).
Proof.
  unfold SwapOutTimerHandler.
  now destruct (reduceGraphicMemory ticks_per_second swapOut (set_maSwapOutTimer false s)).
Qed.

(** X12.  After a tick of the timer the timer is running again, whatever
    happened in between.  A tick whose reduction is suppressed (swapping
    disabled, counter below the limit, or reduction in progress) does
    nothing but lock and unlock: the counter, the registry, the objects
    and the clock are as before.  A tick that is not suppressed takes the
    snapshot of the registry first and ends with the counter equal to the
    recalculated sum and the flag of the reduction cleared. *)
Theorem SwapOutTimerHandler_restarts_the_timer s :
  let r := SwapOutTimerHandler ticks_per_second swapOut s in
  maSwapOutTimer (manager (fst r)) = true
  /\ (suppressed s = true ->
      snd r = [EvLock; EvUnlock]
      /\ mnUsedSize (manager (fst r)) = mnUsedSize (manager s)
      /\ m_pImpGraphicList (manager (fst r)) = m_pImpGraphicList (manager s)
      /\ mbReducingGraphicMemory (manager (fst r)) = mbReducingGraphicMemory (manager s)
      /\ graphics (fst r) = graphics s
      /\ clock (fst r) = clock s)
  /\ (suppressed s = false ->
      accounted (fst r)
      /\ mbReducingGraphicMemory (manager (fst r)) = false
      /\ exists t, snd r = EvLock :: EvSnapshot (m_pImpGraphicList (manager s)) :: t).
Proof.
  intros r. subst r. rewrite SwapOutTimerHandler_unfold. cbn [fst snd].
  split; [reflexivity|]. split.
  - intros Hs.
    rewrite (reduceGraphicMemory_suppressed ticks_per_second swapOut
               (set_maSwapOutTimer false s) Hs).
    repeat split.
  - intros Hs.
    destruct (reduceGraphicMemory_runs ticks_per_second swapOut
                (set_maSwapOutTimer false s) Hs) as (Ht & Hf & Hacc).
    split; [exact Hacc|]. split; [exact Hf|].
    rewrite Ht, loopGraphicsAndSwapOut_trace. eexists. reflexivity.
Qed.

(** X13.  The two triggers of the eviction do not agree when the counter
    is exactly at the limit: with swapping enabled and no reduction in
    progress the tick of the timer runs the sweep ([mnUsedSize <
    mnMemoryLimit] is false), while [registerGraphic] does not
    ([mnUsedSize > mnMemoryLimit] is false too) and calls no [swapOut]. *)
Theorem timer_sweeps_at_the_limit_register_does_not p s :
  mnUsedSize (manager s) = mnMemoryLimit (manager s) ->
  mbSwapEnabled (manager s) = true ->
  mbReducingGraphicMemory (manager s) = false ->
  existsb isSnapshot (snd (SwapOutTimerHandler ticks_per_second swapOut s)) = true
  /\ existsb isSnapshot (snd (registerGraphic ticks_per_second swapOut p s)) = false
  /\ swapOutCalls (snd (registerGraphic ticks_per_second swapOut p s)) = [].
Proof.
  intros Hu He Hg.
  assert (Hs : suppressed s = false).
  { unfold suppressed. rewrite He, Hg. simpl. rewrite orb_false_r. apply Z.ltb_ge. lia. }
  split.
  - rewrite SwapOutTimerHandler_unfold. cbn [snd].
    rewrite (proj1 (reduceGraphicMemory_runs ticks_per_second swapOut
                      (set_maSwapOutTimer false s) Hs)).
    now rewrite loopGraphicsAndSwapOut_trace.
  - assert (Hm : makeSpace ticks_per_second swapOut s = (s, []))
      by (apply makeSpace_under_limit; lia).
    destruct (registerGraphic_no_sweep ticks_per_second swapOut p s Hm)
      as (_ & _ & _ & _ & _ & _ & _ & Ht).
    rewrite Ht. split; simpl; destruct (_ =? _); reflexivity.
Qed.

(** X14.  With swapping disabled no entry point ever calls [swapOut] or
    takes a snapshot, however far the counter is above the limit:
    [registerGraphic] still registers the object and recalculates the
    counter, and a tick of the timer changes nothing. *)
Theorem swapping_disabled_never_evicts p s :
  mbSwapEnabled (manager s) = false ->
  swapOutCalls (snd (registerGraphic ticks_per_second swapOut p s)) = []
  /\ existsb isSnapshot (snd (registerGraphic ticks_per_second swapOut p s)) = false
  /\ In p (m_pImpGraphicList (manager (fst (registerGraphic ticks_per_second swapOut p s))))
  /\ accounted (fst (registerGraphic ticks_per_second swapOut p s))
  /\ mbSwapEnabled (manager (fst (registerGraphic ticks_per_second swapOut p s))) = false
  /\ snd (SwapOutTimerHandler ticks_per_second swapOut s) = [EvLock; EvUnlock]
  /\ mnUsedSize (manager (fst (SwapOutTimerHandler ticks_per_second swapOut s)))
     = mnUsedSize (manager s).
Proof.
  intros He.
  assert (Hs : suppressed s = true) by (unfold suppressed; now rewrite He).
  pose proof (makeSpace_suppressed ticks_per_second swapOut s Hs) as Hm.
  destruct (registerGraphic_no_sweep ticks_per_second swapOut p s Hm)
    as (Hr & _ & _ & Hu & _ & Hen & _ & Ht).
  split; [rewrite Ht; simpl; destruct (_ =? _); reflexivity|].
  split; [rewrite Ht; simpl; destruct (_ =? _); reflexivity|].
  split; [rewrite Hr; apply sorted_vectorFacts.In_insert|].
  split; [exact Hu|]. split; [now rewrite Hen|].
  rewrite SwapOutTimerHandler_unfold. cbn [fst snd].
  rewrite (reduceGraphicMemory_suppressed ticks_per_second swapOut
             (set_maSwapOutTimer false s) Hs).
  split; reflexivity.
Qed.

End TimerExtras.

(** ** The constructor *)

(** X15.  A manager is constructed with an empty registry, a counter of
    zero, which is the sum, and no reduction in progress; its timer runs
    exactly when swapping ends up enabled.  When the process is not
    fuzzing and all three reads succeed, the manager holds the three
    values read; when it is fuzzing, the configuration is not looked at
    and the defaults stay. *)
Theorem Manager_ctor_initial_state cfg :
  m_pImpGraphicList (Manager_ctor cfg) = []
  /\ mnUsedSize (Manager_ctor cfg) = 0
  /\ mbReducingGraphicMemory (Manager_ctor cfg) = false
  /\ maSwapOutTimer (Manager_ctor cfg) = mbSwapEnabled (Manager_ctor cfg)
  /\ (forall gr now, accounted (mkState (Manager_ctor cfg) gr now))
  /\ (forall l i b,
        IsFuzzing cfg = false ->
        GraphicMemoryLimit_get cfg = Some l ->
        GraphicAllowedIdleTime_get cfg = Some i ->
        GraphicSwappingEnabled_get cfg = Some b ->
        mnMemoryLimit (Manager_ctor cfg) = l
        /\ mnAllowedIdleTime (Manager_ctor cfg) = i
        /\ mbSwapEnabled (Manager_ctor cfg) = b)
  /\ (IsFuzzing cfg = true ->
      forall cfg', IsFuzzing cfg' = true -> Manager_ctor cfg = Manager_ctor cfg').
Proof.
  repeat split.
  - unfold Manager_ctor, setupConfigurationValuesIfPossible, tryBlock.
    rewrite H, H0, H1, H2. reflexivity.
  - unfold Manager_ctor, setupConfigurationValuesIfPossible, tryBlock.
    rewrite H, H0, H1, H2. reflexivity.
  - unfold Manager_ctor, setupConfigurationValuesIfPossible, tryBlock.
    rewrite H, H0, H1, H2. reflexivity.
  - intros Hf cfg' Hf'. unfold Manager_ctor, setupConfigurationValuesIfPossible.
    now rewrite Hf, Hf'.
Qed.

(** ** The registry along runs *)

Section RegistryExtras.

Variable ticks_per_second : Z.
Variable swapOut : ImpGraphicPtr -> State -> State.

Hypothesis swapOut_keeps_registry_sorted :
  forall p s,
    sorted_vector.sorted (m_pImpGraphicList (manager s)) ->
    sorted_vector.sorted (m_pImpGraphicList (manager (swapOut p s))).

(** X16.  The registry stays strictly increasing, hence free of
    duplicates, along every run of registrations, unregistrations and
    notifications, including the sweeps the registrations start, as long
    as [swapOut] itself hands back a sorted registry. *)
Theorem registry_stays_sorted ops s :
  sorted_vector.sorted (m_pImpGraphicList (manager s)) ->
  sorted_vector.sorted
    (m_pImpGraphicList (manager (fst (run ticks_per_second swapOut ops s))))
  /\ NoDup (m_pImpGraphicList (manager (fst (run ticks_per_second swapOut ops s)))).
Proof.
  intros Hs.
  assert (H : sorted_vector.sorted
                (m_pImpGraphicList (manager (fst (run ticks_per_second swapOut ops s))))).
  { revert s Hs. induction ops as [|op ops IH]; intros s Hs; [exact Hs|].
    cbn [run].
    pose proof (step_sorted ticks_per_second swapOut swapOut_keeps_registry_sorted
                  op s Hs) as Hs1.
    destruct (step ticks_per_second swapOut op s) as [s1 t1]. cbn [fst] in Hs1.
    specialize (IH s1 Hs1).
    destruct (run ticks_per_second swapOut ops s1) as [s2 t2]. exact IH. }
  split; [exact H|]. now apply SubsequenceFacts.sorted_NoDup.
Qed.

End RegistryExtras.

(** ** The factories *)

Section FactoryExtras.

Variable ticks_per_second : Z.
Variable swapOut : ImpGraphicPtr -> State -> State.

(** X17.  Every factory returns the pointer of the object it built, and
    that object is registered and the counter recalculated when it
    returns.  Called with the counter at or below the limit, a factory
    calls no [swapOut], keeps every object that was registered, and
    leaves every other object as it was; [copy] in particular leaves its
    source registered and unchanged when the copy is built elsewhere. *)
Theorem factories_register_what_they_return pReturn g copyOf rImpGraphicPtr s :
  let n := newInstance ticks_per_second swapOut pReturn g s in
  let c := copy ticks_per_second swapOut pReturn copyOf rImpGraphicPtr s in
  fst n = pReturn
  /\ In (fst n) (m_pImpGraphicList (manager (fst (snd n))))
  /\ accounted (fst (snd n))
  /\ In (fst c) (m_pImpGraphicList (manager (fst (snd c))))
  /\ accounted (fst (snd c))
  /\ (mnUsedSize (manager s) <= mnMemoryLimit (manager s) ->
      swapOutCalls (snd (snd n)) = []
      /\ graphics (fst (snd n)) pReturn = g
      /\ (forall q, q <> pReturn -> graphics (fst (snd n)) q = graphics s q)
      /\ (forall q, In q (m_pImpGraphicList (manager s)) ->
                    In q (m_pImpGraphicList (manager (fst (snd n)))))
      /\ graphics (fst (snd c)) pReturn = copyOf (graphics s rImpGraphicPtr)
      /\ (rImpGraphicPtr <> pReturn ->
          graphics (fst (snd c)) rImpGraphicPtr = graphics s rImpGraphicPtr
          /\ (In rImpGraphicPtr (m_pImpGraphicList (manager s)) ->
              In rImpGraphicPtr (m_pImpGraphicList (manager (fst (snd c))))))).
Proof.
  intros n c. subst n c. unfold copy, newInstance. cbn [fst snd].
  split; [reflexivity|].
  split; [destruct (registerGraphic_result ticks_per_second swapOut pReturn
                      (setGraphic pReturn g s)) as (Hr & _);
          rewrite Hr; apply sorted_vectorFacts.In_insert|].
  split; [apply registerGraphic_result|].
  split; [destruct (registerGraphic_result ticks_per_second swapOut pReturn
                      (setGraphic pReturn (copyOf (graphics s rImpGraphicPtr)) s))
            as (Hr & _);
          rewrite Hr; apply sorted_vectorFacts.In_insert|].
  split; [apply registerGraphic_result|].
  intros Hle.
  assert (Hm : forall g',
             makeSpace ticks_per_second swapOut (setGraphic pReturn g' s)
             = (setGraphic pReturn g' s, []))
    by (intros g'; now apply makeSpace_under_limit).
  destruct (registerGraphic_no_sweep ticks_per_second swapOut pReturn _ (Hm g))
    as (Hr & Hg & _ & _ & _ & _ & _ & Ht).
  destruct (registerGraphic_no_sweep ticks_per_second swapOut pReturn _
              (Hm (copyOf (graphics s rImpGraphicPtr))))
    as (Hr' & Hg' & _).
  split; [rewrite Ht; simpl; destruct (_ =? _); reflexivity|].
  split; [rewrite Hg; apply SumFacts.graphics_setGraphic_same|].
  split.
  { intros q Hq. rewrite Hg. unfold setGraphic. cbn [graphics].
    destruct (N.eqb_spec q pReturn); [contradiction|reflexivity]. }
  split.
  { intros q Hq. rewrite Hr. apply sorted_vectorFacts.In_insert_iff. now right. }
  split; [rewrite Hg'; apply SumFacts.graphics_setGraphic_same|].
  intros Hne. split.
  - rewrite Hg'. unfold setGraphic. cbn [graphics].
    destruct (N.eqb_spec rImpGraphicPtr pReturn); [contradiction|reflexivity].
  - intros Hin. rewrite Hr'. apply sorted_vectorFacts.In_insert_iff. now right.
Qed.

End FactoryExtras.

(** ** The further properties at scenarios *)

Module Scenario2Facts.

Import Scenario Scenario2.

Lemma atLimit_sorted : sorted_vector.sorted (m_pImpGraphicList (manager atLimit)).
Proof.
  assert (H : m_pImpGraphicList (manager atLimit) = [1%N; 2%N])
    by (vm_compute; reflexivity).
  rewrite H. repeat constructor.
Qed.

Lemma afterThree_sorted :
  sorted_vector.sorted (m_pImpGraphicList (manager (guarded afterThree))).
Proof.
  assert (H : m_pImpGraphicList (manager (guarded afterThree)) = [1%N; 2%N; 3%N])
    by (vm_compute; reflexivity).
  rewrite H. repeat constructor.
Qed.

Lemma busy_without_candidates p :
  In p (m_pImpGraphicList (manager busy)) -> evictable nanoseconds busy p = false.
Proof.
  assert (H : m_pImpGraphicList (manager busy) = [1%N]) by (vm_compute; reflexivity).
  rewrite H. intros [<-|[]]. vm_compute. reflexivity.
Qed.

Lemma atLimitThirdBuilt_new :
  ~ In 3%N (m_pImpGraphicList (manager atLimitThirdBuilt)).
Proof.
  assert (H : m_pImpGraphicList (manager atLimitThirdBuilt) = [1%N; 2%N])
    by (vm_compute; reflexivity).
  rewrite H. intros [H1|[H1|[]]]; discriminate.
Qed.

Lemma atLimit_member : In 1%N (m_pImpGraphicList (manager atLimit)).
Proof.
  assert (H : m_pImpGraphicList (manager atLimit) = [1%N; 2%N])
    by (vm_compute; reflexivity).
  rewrite H. now left.
Qed.

Lemma sweep_calls_each_snapshotted_object_at_most_once_witness :
  NoDup (swapOutCalls (snd (loopGraphicsAndSwapOut nanoseconds ImpGraphic_swapOut
                              (guarded afterThree)))).
Proof.
  exact (proj2 (proj2 (sweep_calls_each_snapshotted_object_at_most_once
                         nanoseconds ImpGraphic_swapOut (guarded afterThree)))
               afterThree_sorted).
Defined.

Lemma reduceGraphicMemory_without_candidates_witness :
  let r := reduceGraphicMemory nanoseconds ImpGraphic_swapOut busy in
  snd r = [EvSnapshot (m_pImpGraphicList (manager busy))]
  /\ m_pImpGraphicList (manager (fst r)) = m_pImpGraphicList (manager busy)
  /\ graphics (fst r) = graphics busy
  /\ clock (fst r) = clock busy
  /\ mnUsedSize (manager (fst r)) = calculatedSize busy
  /\ mbReducingGraphicMemory (manager (fst r)) = false.
Proof.
  apply (reduceGraphicMemory_without_candidates nanoseconds ImpGraphic_swapOut busy).
  - vm_compute. reflexivity.
  - exact busy_without_candidates.
Defined.


Lemma registerGraphic_under_limit_witness :
  swapOutCalls (snd (registerGraphic nanoseconds ImpGraphic_swapOut 3%N atLimitThirdBuilt))
  = [].
Proof.
  assert (Hle : mnUsedSize (manager atLimitThirdBuilt)
                <= mnMemoryLimit (manager atLimitThirdBuilt))
    by (vm_compute; discriminate).
  exact (proj1 (registerGraphic_under_limit nanoseconds ImpGraphic_swapOut 3%N
                  atLimitThirdBuilt Hle)).
Defined.

Lemma registerGraphic_twice_counts_once_witness :
  let r := registerGraphic nanoseconds ImpGraphic_swapOut 1%N atLimit in
  m_pImpGraphicList (manager (fst r)) = m_pImpGraphicList (manager atLimit)
  /\ mnUsedSize (manager (fst r)) = mnUsedSize (manager atLimit)
  /\ graphics (fst r) = graphics atLimit.
Proof.
  apply (registerGraphic_twice_counts_once nanoseconds ImpGraphic_swapOut 1%N atLimit).
  - vm_compute. discriminate.
  - exact atLimit_sorted.
  - exact atLimit_member.
  - vm_compute. reflexivity.
Defined.

Lemma register_then_unregister_restores_witness :
  let s1 := fst (registerGraphic nanoseconds ImpGraphic_swapOut 3%N atLimitThirdBuilt) in
  let s2 := fst (unregisterGraphic 3%N s1) in
  m_pImpGraphicList (manager s2) = m_pImpGraphicList (manager atLimitThirdBuilt)
  /\ mnUsedSize (manager s2) = mnUsedSize (manager atLimitThirdBuilt)
  /\ graphics s2 = graphics atLimitThirdBuilt
  /\ accounted s2.
Proof.
  apply (register_then_unregister_restores nanoseconds ImpGraphic_swapOut 3%N
           atLimitThirdBuilt).
  - vm_compute. discriminate.
  - vm_compute. reflexivity.
  - exact atLimitThirdBuilt_new.
  - vm_compute. reflexivity.
Defined.

Lemma registerGraphic_during_reduction_does_not_sweep_witness :
  swapOutCalls (snd (registerGraphic nanoseconds ImpGraphic_swapOut 4%N
                       (guarded beforeFourth))) = [].
Proof.
  exact (proj1 (registerGraphic_during_reduction_does_not_sweep nanoseconds
                  ImpGraphic_swapOut 4%N (guarded beforeFourth) eq_refl)).
Defined.

Lemma unregisterGraphic_of_unregistered_witness :
  ~ accounted (fst (unregisterGraphic 3%N atLimitThirdBuilt)).
Proof.
  assert (Hacc : accounted atLimitThirdBuilt) by (vm_compute; reflexivity).
  assert (Hr : Int64.in_range (getGraphicSizeBytes atLimitThirdBuilt 3%N))
    by (vm_compute; split; discriminate).
  assert (Hne : getGraphicSizeBytes atLimitThirdBuilt 3%N <> 0)
    by (vm_compute; discriminate).
  exact (proj2 (proj2 (proj2 (unregisterGraphic_of_unregistered 3%N atLimitThirdBuilt
                                atLimit_sorted atLimitThirdBuilt_new)))
               Hacc Hr Hne).
Defined.

Lemma swappedIn_swappedOut_cancel_witness :
  mnUsedSize (manager (fst (swappedOut 1%N 500000 (fst (swappedIn 1%N 500000 atLimit)))))
  = mnUsedSize (manager atLimit).
Proof.
  assert (Hr : Int64.in_range (mnUsedSize (manager atLimit)))
    by (vm_compute; split; discriminate).
  exact (proj1 (swappedIn_swappedOut_cancel 1%N 500000 atLimit Hr)).
Defined.


Lemma SwapOutTimerHandler_restarts_the_timer_witness :
  accounted (fst (SwapOutTimerHandler nanoseconds ImpGraphic_swapOut afterThree)).
Proof.
  assert (Hs : suppressed afterThree = false) by (vm_compute; reflexivity).
  exact (proj1 (proj2 (proj2 (SwapOutTimerHandler_restarts_the_timer nanoseconds
                                ImpGraphic_swapOut afterThree)) Hs)).
Defined.

Lemma timer_sweeps_at_the_limit_register_does_not_witness :
  existsb isSnapshot (snd (SwapOutTimerHandler nanoseconds ImpGraphic_swapOut atLimit)) = true
  /\ existsb isSnapshot (snd (registerGraphic nanoseconds ImpGraphic_swapOut 3%N atLimit))
     = false
  /\ swapOutCalls (snd (registerGraphic nanoseconds ImpGraphic_swapOut 3%N atLimit)) = [].
Proof.
  apply (timer_sweeps_at_the_limit_register_does_not nanoseconds ImpGraphic_swapOut
           3%N atLimit); vm_compute; reflexivity.
Defined.

Lemma swapping_disabled_never_evicts_witness :
  swapOutCalls (snd (registerGraphic nanoseconds ImpGraphic_swapOut 4%N disabled)) = [].
Proof.
  assert (He : mbSwapEnabled (manager disabled) = false) by (vm_compute; reflexivity).
  exact (proj1 (swapping_disabled_never_evicts nanoseconds ImpGraphic_swapOut 4%N
                  disabled He)).
Defined.

Lemma Manager_ctor_initial_state_witness :
  mnMemoryLimit (Manager_ctor configured) = 1000000
  /\ mnAllowedIdleTime (Manager_ctor configured) = 30
  /\ mbSwapEnabled (Manager_ctor configured) = false.
Proof.
  exact (proj1 (proj2 (proj2 (proj2 (proj2 (proj2
           (Manager_ctor_initial_state configured))))))
           1000000 30 false eq_refl eq_refl eq_refl eq_refl).
Defined.

Lemma registry_stays_sorted_witness :
  NoDup (m_pImpGraphicList
           (manager (fst (run nanoseconds ImpGraphic_swapOut exactRun (fresh defaults 0))))).
Proof.
  exact (proj2 (registry_stays_sorted nanoseconds ImpGraphic_swapOut
                  ScenarioFacts.ImpGraphic_swapOut_keeps_sorted exactRun (fresh defaults 0)
                  (SSorted_nil N.lt))).
Defined.

Lemma factories_register_what_they_return_witness :
  swapOutCalls
    (snd (snd (newInstance nanoseconds ImpGraphic_swapOut 3%N (idleGraphic 1 0) atLimit)))
  = [].
Proof.
  assert (Hle : mnUsedSize (manager atLimit) <= mnMemoryLimit (manager atLimit))
    by (vm_compute; discriminate).
  exact (proj1 (proj2 (proj2 (proj2 (proj2 (proj2
           (factories_register_what_they_return nanoseconds ImpGraphic_swapOut
              3%N (idleGraphic 1 0) (fun g => g) 1%N atLimit))))) Hle)).
Defined.

End Scenario2Facts.
